(** * CSE287 ray tracer: plane intersection, closest hit, shading, lights

    A shallow embedding of [Plane.cpp], [RayTracer.cpp] and [LightSource.h].

    Numbers.  The C++ [double] is read as a real number ([R]): products, sums,
    quotients and square roots are exact, so rounding, overflow and NaN are
    outside the model.  The only non-finite value the embedded code ever
    writes is the literal [INFINITY]; the two slots that can hold it
    ([HitRecord::t] and the result of [getLightDistance]) have the type
    [double_inf], a real or [INFINITY].  A quotient whose divisor is zero is
    no real number in the source; the one such quotient in the embedded code
    is the falloff factor of a spot light whose cut-off cosine is exactly 1,
    and the results that depend on the value of that factor exclude this
    case ([falloff_defined]).

    Headers.  [Defines.h] (the [color] type, [BLACK], [WHITE]), [Material.h]
    and [HitRecord.h] are not part of the sources at hand; what the code uses
    of them is taken as the fields of three interfaces ([Defines],
    [MaterialDecl], [HitRecordDecl]). *)

From Stdlib Require Import Reals Lra Psatz List Bool ZArith.
Import ListNotations.
Local Open Scope R_scope.

(* ================================================================== *)
(** ** GLM vector operations used by the sources *)
(* ================================================================== *)

Module Glm.

Record dvec2 : Type := mk_dvec2 { x2 : R; y2 : R }.

Record dvec3 : Type := mk_dvec3 { x : R; y : R; z : R }.

Definition add (p q : dvec3) : dvec3 :=
  mk_dvec3 (x p + x q) (y p + y q) (z p + z q).

Definition sub (p q : dvec3) : dvec3 :=
  mk_dvec3 (x p - x q) (y p - y q) (z p - z q).

Definition neg (p : dvec3) : dvec3 :=
  mk_dvec3 (- x p) (- y p) (- z p).

(** [k * p] and [p * k] *)
Definition scale (k : R) (p : dvec3) : dvec3 :=
  mk_dvec3 (k * x p) (k * y p) (k * z p).

Definition dot (p q : dvec3) : R :=
  x p * x q + y p * y q + z p * z q.

Definition cross (p q : dvec3) : dvec3 :=
  mk_dvec3 (y p * z q - y q * z p)
           (z p * x q - z q * x p)
           (x p * y q - x q * y p).

Definition length (p : dvec3) : R := sqrt (dot p p).

(** [glm::inversesqrt] *)
Definition inversesqrt (r : R) : R := 1 / sqrt r.

(** [glm::normalize(v)] is [v * inversesqrt(dot(v, v))] *)
Definition normalize (p : dvec3) : dvec3 := scale (inversesqrt (dot p p)) p.

(** [glm::distance(p0, p1)] is [length(p1 - p0)] *)
Definition distance (p0 p1 : dvec3) : R := length (sub p1 p0).

Definition zero : dvec3 := mk_dvec3 0 0 0.

End Glm.

Import Glm.

Declare Scope vec_scope.
Delimit Scope vec_scope with vec.
Bind Scope vec_scope with dvec3.
Infix "+" := Glm.add : vec_scope.
Infix "-" := Glm.sub : vec_scope.
Notation "- p" := (Glm.neg p) : vec_scope.
Infix "*" := Glm.scale : vec_scope.

(* ================================================================== *)
(** ** A double that may be the literal INFINITY *)
(* ================================================================== *)

Inductive double_inf : Type :=
| Fin (r : R)
| INFINITY.

(** [a < b] on such values *)
Definition dlt (p q : double_inf) : Prop :=
  match p, q with
  | Fin r, Fin s => r < s
  | Fin _, INFINITY => True
  | INFINITY, _ => False
  end.

Definition dle (p q : double_inf) : Prop :=
  match p, q with
  | Fin r, Fin s => r <= s
  | _, INFINITY => True
  | INFINITY, Fin _ => False
  end.

Definition dlt_dec (p q : double_inf) : {dlt p q} + {~ dlt p q}.
Proof.
  destruct p as [r|], q as [s|]; simpl.
  - apply Rlt_dec.
  - left; exact I.
  - right; intros [].
  - right; intros [].
Defined.

(* ================================================================== *)
(** ** The declarations taken from the missing headers *)
(* ================================================================== *)

(** [Defines.h]: the color type, its two constants, and the two operators
    the sources apply to colors ([+=] and [double * color]). *)
Class Defines : Type := {
  color : Type;
  BLACK : color;
  WHITE : color;
  color_add : color -> color -> color;
  color_scale : R -> color -> color
}.

(** [Material.h]: a material hands out its emissive color. *)
Class MaterialDecl `{Defines} : Type := {
  Material : Type;
  getEmisive : Material -> color
}.

Section Model.

Context `{MD : MaterialDecl}.

(* ---------------------------------------------------------------- *)
(** *** Ray and HitRecord *)

Record Ray : Type := mk_Ray { origin : dvec3; direct : dvec3 }.

Record HitRecord : Type := mk_HitRecord {
  t : double_inf;
  interceptPoint : dvec3;
  surfaceNormal : dvec3;
  material : Material;
  uv : dvec2
}.

Definition set_t (h : HitRecord) (t' : double_inf) : HitRecord :=
  mk_HitRecord t' (interceptPoint h) (surfaceNormal h) (material h) (uv h).

(** [HitRecord.h]: what a default-constructed [HitRecord] holds. *)
Class HitRecordDecl : Type := { HitRecord_default : HitRecord }.

Context `{HD : HitRecordDecl}.

(* ---------------------------------------------------------------- *)
(** *** Surface and Plane *)

(** A surface is an object with the virtual method [findIntersect]. *)
Record Surface : Type := mk_Surface { findIntersect : Ray -> HitRecord }.

(** [Plane]: a point [a], a normal [n], and the material it inherits from
    [Surface]. *)
Record Plane : Type := mk_Plane {
  a : dvec3;
  n : dvec3;
  Surface_material : Material
}.

(** [Plane::findIntersect] *)
Definition Plane_findIntersect (p : Plane) (ray : Ray) : HitRecord :=
  let hitRecord := HitRecord_default in
  let denominator := dot (direct ray) (n p) in
  if Rlt_dec denominator 0 then
    let t := dot (a p - origin ray) (n p) / denominator in
    mk_HitRecord (Fin t)
                 (origin ray + t * direct ray)
                 (n p)
                 (Surface_material p)
                 (uv hitRecord)
  else
    set_t hitRecord INFINITY.

Definition Plane_as_Surface (p : Plane) : Surface :=
  mk_Surface (Plane_findIntersect p).

(* ---------------------------------------------------------------- *)
(** *** LightSource and its three sub-structs *)

(** The data members of the base struct. *)
Record LightSourceFields : Type := mk_LightSourceFields {
  ambientLightColor : color;
  diffuseLightColor : color;
  specularLightColor : color;
  enabled : bool
}.

(** [LightSource(lightColor)]: the member initialisers of the base. *)
Definition LightSource_init (lightColor : color) : LightSourceFields :=
  mk_LightSourceFields BLACK lightColor WHITE true.

(** The dynamic type of a light, with the members each struct adds. *)
Inductive LightSource : Type :=
| AmbientLight (base : LightSourceFields)
| PositionalLight (base : LightSourceFields) (lightPosition : dvec3)
| DirectionalLight (base : LightSourceFields) (lightDirection : dvec3)
| SpotLight (base : LightSourceFields) (lightPosition : dvec3)
            (spotDirection : dvec3) (cutOffCosineRadians : R).

Definition new_LightSource (lightColor : color) : LightSource :=
  AmbientLight (LightSource_init lightColor).

Definition new_PositionalLight (position : dvec3) (lightColor : color)
  : LightSource :=
  PositionalLight (LightSource_init lightColor) position.


Definition new_SpotLight (position direction : dvec3)
           (cutOffCosineRadians : R) (colorOfLight : color) : LightSource :=
  SpotLight (LightSource_init colorOfLight) position
            (normalize direction) cutOffCosineRadians.

Definition fields (l : LightSource) : LightSourceFields :=
  match l with
  | AmbientLight b => b
  | PositionalLight b _ => b
  | DirectionalLight b _ => b
  | SpotLight b _ _ _ => b
  end.

(** Assignment to the public member [enabled]. *)
Definition set_enabled (e : bool) (l : LightSource) : LightSource :=
  let upd b := mk_LightSourceFields (ambientLightColor b)
                 (diffuseLightColor b) (specularLightColor b) e in
  match l with
  | AmbientLight b => AmbientLight (upd b)
  | PositionalLight b lp => PositionalLight (upd b) lp
  | DirectionalLight b ld => DirectionalLight (upd b) ld
  | SpotLight b lp sd c => SpotLight (upd b) lp sd c
  end.

(** [LightSource::getLocalIllumination] *)
Definition LightSource_getLocalIllumination (base : LightSourceFields)
           (eyeVector position normal : dvec3) (material : Material)
           (uv : dvec2) : color :=
  BLACK.

(** [PositionalLight::getLocalIllumination] *)
Definition PositionalLight_getLocalIllumination (base : LightSourceFields)
           (lightPosition : dvec3)
           (eyeVector position normal : dvec3) (material : Material)
           (uv : dvec2) : color :=
  BLACK.

(** [DirectionalLight::getLocalIllumination] *)
Definition DirectionalLight_getLocalIllumination (base : LightSourceFields)
           (lightDirection : dvec3)
           (eyeVector position normal : dvec3) (material : Material)
           (uv : dvec2) : color :=
  BLACK.

(** [SpotLight::getLocalIllumination].  The falloff factor divides by
    [1 - cutOffCosineRadians]: for a cut-off cosine of exactly 1 the source
    divides by zero, and [normalize] divides by zero when [position] is the
    light's position.  What is proved of the value returned by this function
    is stated either on the quotient as written or away from these inputs. *)
Definition SpotLight_getLocalIllumination (base : LightSourceFields)
           (lightPosition spotDirection : dvec3) (cutOffCosineRadians : R)
           (eyeVector position normal : dvec3) (material : Material)
           (uv : dvec2) : color :=
  let negLightVec := (- normalize (lightPosition - position))%vec in
  let fallOffFactor :=
    1 - (1 - dot negLightVec spotDirection) / (1 - cutOffCosineRadians) in
  if Rgt_dec (dot negLightVec spotDirection) cutOffCosineRadians then
    color_scale fallOffFactor
      (PositionalLight_getLocalIllumination base lightPosition
         eyeVector position normal material uv)
  else BLACK.

(** Virtual dispatch of [getLocalIllumination]. *)
Definition getLocalIllumination (l : LightSource)
           (eyeVector position normal : dvec3) (material : Material)
           (uv : dvec2) : color :=
  match l with
  | AmbientLight b =>
      LightSource_getLocalIllumination b eyeVector position normal material uv
  | PositionalLight b lp =>
      PositionalLight_getLocalIllumination b lp
        eyeVector position normal material uv
  | DirectionalLight b ld =>
      DirectionalLight_getLocalIllumination b ld
        eyeVector position normal material uv
  | SpotLight b lp sd c =>
      SpotLight_getLocalIllumination b lp sd c
        eyeVector position normal material uv
  end.

(** Virtual dispatch of [getLightVector]; [SpotLight] inherits the method
    of [PositionalLight]. *)
Definition getLightVector (l : LightSource) (position : dvec3) : dvec3 :=
  match l with
  | AmbientLight _ => mk_dvec3 0 0 0
  | PositionalLight _ lp => normalize (lp - position)
  | DirectionalLight _ ld => ld
  | SpotLight _ lp _ _ => normalize (lp - position)
  end.

(** Virtual dispatch of [getLightDistance]; [SpotLight] inherits the method
    of [PositionalLight]. *)
Definition getLightDistance (l : LightSource) (position : dvec3)
  : double_inf :=
  match l with
  | AmbientLight _ => Fin 0
  | PositionalLight _ lp => Fin (distance lp position)
  | DirectionalLight _ _ => INFINITY
  | SpotLight _ lp _ _ => Fin (distance lp position)
  end.

(* ---------------------------------------------------------------- *)
(** *** RayTracer *)

(** The members of [RayTracer] that the embedded methods read or write
    (the frame buffer and the viewport limits are left out). *)
Record RayTracer : Type := mk_RayTracer {
  defaultColor : color;
  recursionDepth : Z;
  surfaces : list Surface;
  lights : list LightSource;
  eye : dvec3;
  u : dvec3;
  v : dvec3;
  w : dvec3
}.

(** [RayTracer::setCameraFrame] *)
Definition setCameraFrame (rt : RayTracer)
           (viewPosition viewingDirection up : dvec3) : RayTracer :=
  let eye' := viewPosition in
  let w' := normalize (- viewingDirection)%vec in
  let u' := normalize (cross up w') in
  let v' := normalize (cross w' u') in
  mk_RayTracer (defaultColor rt) (recursionDepth rt) (surfaces rt)
               (lights rt) eye' u' v' w'.

(** One turn of the loop of [findClosestIntersection]. *)
Definition closer (ray : Ray) (closestHit : HitRecord) (s : Surface)
  : HitRecord :=
  let temp := findIntersect s ray in
  if dlt_dec (t temp) (t closestHit) then temp else closestHit.

(** [RayTracer::findClosestIntersection] *)
Definition findClosestIntersection (rt : RayTracer) (ray : Ray)
  : HitRecord :=
  let closestHit := set_t HitRecord_default INFINITY in
  fold_left (closer ray) (surfaces rt) closestHit.

(** One turn of the loop over the lights in [traceRay]. *)
Definition add_light (ray : Ray) (closesHit : HitRecord)
           (totalColor : color) (light : LightSource) : color :=
  color_add totalColor
    (getLocalIllumination light (- direct ray)%vec
       (interceptPoint closesHit) (surfaceNormal closesHit)
       (material closesHit) (uv closesHit)).

(** [RayTracer::traceRay] *)
Definition traceRay (rt : RayTracer) (ray : Ray) (recursionLevel : Z)
  : color :=
  let closesHit := findClosestIntersection rt ray in
  if dlt_dec (t closesHit) INFINITY then
    let totalColor := getEmisive (material closesHit) in
    fold_left (add_light ray closesHit) (lights rt) totalColor
  else
    defaultColor rt.

End Model.

(** [BLACK] stands for "no light": adding it changes nothing and scaling it
    leaves it black.  The constant itself lives in [Defines.h]; the results
    that speak of the stubbed illumination as contributing nothing state this
    as their assumption. *)
Class BlackIsNoLight `{Defines} : Prop := {
  color_add_BLACK : forall c : color, color_add c BLACK = c;
  color_scale_BLACK : forall k : R, color_scale k BLACK = BLACK
}.

(* ================================================================== *)
(** ** A concrete scene vocabulary, used to run the model on inputs *)
(* ================================================================== *)

Module Demo.

(** RGB colors as triples of reals. *)
Definition rgb : Defines :=
  {| color := dvec3;
     BLACK := mk_dvec3 0 0 0;
     WHITE := mk_dvec3 1 1 1;
     color_add := Glm.add;
     color_scale := Glm.scale |}.

(** A material that is nothing but its emissive color. *)
Definition emissive_only : @MaterialDecl rgb :=
  @Build_MaterialDecl rgb dvec3 (fun m => m).

Definition hit0 : @HitRecordDecl rgb emissive_only :=
  {| HitRecord_default :=
       @mk_HitRecord rgb emissive_only INFINITY Glm.zero Glm.zero
                     (mk_dvec3 0 0 0) (mk_dvec2 (1/2) (1/2)) |}.

Definition red : @Material rgb emissive_only := mk_dvec3 1 0 0.
Definition green : @Material rgb emissive_only := mk_dvec3 0 1 0.
Definition gray : @color rgb := mk_dvec3 (1/2) (1/2) (1/2).

(** The plane z = 0 facing +z, and the plane z = -3 facing +z. *)
Definition floor0 : @Plane rgb emissive_only :=
  @mk_Plane rgb emissive_only (mk_dvec3 0 0 0) (mk_dvec3 0 0 1) red.
Definition floor3 : @Plane rgb emissive_only :=
  @mk_Plane rgb emissive_only (mk_dvec3 0 0 (-3)) (mk_dvec3 0 0 1) green.

(** A ray looking down from z = 1, and one looking down from z = -1, which
    has [floor0] behind it and [floor3] ahead. *)
Definition down_from_above : @Ray := mk_Ray (mk_dvec3 0 0 1) (mk_dvec3 0 0 (-1)).
Definition down_from_below : @Ray := mk_Ray (mk_dvec3 0 0 (-1)) (mk_dvec3 0 0 (-1)).

Definition up_from_above : @Ray := mk_Ray (mk_dvec3 0 0 1) (mk_dvec3 0 0 1).

(** The plane z = 0 once more, with another material. *)
Definition floor0' : @Plane rgb emissive_only :=
  @mk_Plane rgb emissive_only (mk_dvec3 0 0 0) (mk_dvec3 0 0 1) green.

(** A spot light at z = 1 shining down, with a 60 degree half-angle. *)
Definition spot_position : dvec3 := mk_dvec3 0 0 1.
Definition spot_axis : dvec3 := mk_dvec3 0 0 (-1).
Definition spot_fields : @LightSourceFields rgb :=
  @LightSource_init rgb (mk_dvec3 1 1 1).
Definition spot : @LightSource rgb :=
  @SpotLight rgb spot_fields spot_position spot_axis (1/2).

Definition scene (ss : list (@Surface rgb emissive_only))
  : @RayTracer rgb emissive_only :=
  @mk_RayTracer rgb emissive_only gray 2%Z ss
    [spot; @new_PositionalLight rgb spot_position (mk_dvec3 1 1 1)]
    Glm.zero Glm.zero Glm.zero Glm.zero.

End Demo.

(* ================================================================== *)
(** ** Vector algebra *)
(* ================================================================== *)

Ltac vec_unfold :=
  unfold Glm.normalize, Glm.distance, Glm.length, Glm.cross, Glm.dot,
    Glm.add, Glm.sub, Glm.neg, Glm.scale, Glm.zero in *; simpl in *.

Ltac vec_ring :=
  intros;
  repeat match goal with p : dvec3 |- _ => destruct p end;
  vec_unfold; try (f_equal; ring); try ring.

Lemma dot_comm (p q : dvec3) : dot p q = dot q p.
Proof. vec_ring. Qed.

Lemma dot_scale_l (k : R) (p q : dvec3) : dot (k * p)%vec q = k * dot p q.
Proof. vec_ring. Qed.

Lemma dot_scale_r (k : R) (p q : dvec3) : dot p (k * q)%vec = k * dot p q.
Proof. vec_ring. Qed.

Lemma dot_neg_neg (p : dvec3) : dot (- p)%vec (- p)%vec = dot p p.
Proof. vec_ring. Qed.

Lemma dot_sub_swap (p q : dvec3) : dot (p - q)%vec (p - q)%vec = dot (q - p)%vec (q - p)%vec.
Proof. vec_ring. Qed.

Lemma dot_self_nonneg (p : dvec3) : 0 <= dot p p.
Proof. destruct p; vec_unfold; nra. Qed.

Lemma dot_self_zero (p : dvec3) : dot p p = 0 -> p = Glm.zero.
Proof.
  destruct p as [px py pz]; vec_unfold; intros E.
  assert (px = 0) by nra. assert (py = 0) by nra. assert (pz = 0) by nra.
  subst; reflexivity.
Qed.

Lemma dot_self_pos (p : dvec3) : p <> Glm.zero -> 0 < dot p p.
Proof.
  intros Hp. destruct (Rle_lt_or_eq_dec _ _ (dot_self_nonneg p)) as [L|E]; auto.
  exfalso; apply Hp, dot_self_zero; auto.
Qed.

Lemma scale_1 (p : dvec3) : (1 * p)%vec = p.
Proof. vec_ring. Qed.

Lemma cross_scale_r (k : R) (p q : dvec3) : cross p (k * q)%vec = (k * cross p q)%vec.
Proof. vec_ring. Qed.

Lemma cross_scale_l (k : R) (p q : dvec3) : cross (k * p)%vec q = (k * cross p q)%vec.
Proof. vec_ring. Qed.

Lemma cross_neg_r (p q : dvec3) : cross p (- q)%vec = ((-1) * cross p q)%vec.
Proof. vec_ring. Qed.

Lemma cross_dot_l (p q : dvec3) : dot (cross p q) p = 0.
Proof. vec_ring. Qed.

Lemma cross_dot_r (p q : dvec3) : dot (cross p q) q = 0.
Proof. vec_ring. Qed.

(** Lagrange's identity *)
Lemma cross_norm2 (p q : dvec3) :
  dot (cross p q) (cross p q) = dot p p * dot q q - dot p q * dot p q.
Proof. vec_ring. Qed.

(** The vector triple product [p x (q x p)] *)
Lemma cross_cross (p q : dvec3) :
  cross p (cross q p) = (dot p p * q - dot p q * p)%vec.
Proof. vec_ring. Qed.

Lemma scale_eq_zero (k : R) (p : dvec3) :
  k <> 0 -> (k * p)%vec = Glm.zero -> p = Glm.zero.
Proof.
  intros Hk E. destruct p as [px py pz]. vec_unfold.
  injection E as E1 E2 E3.
  f_equal; nra.
Qed.

Lemma inversesqrt_pos (r : R) : 0 < r -> 0 < inversesqrt r.
Proof.
  intros Hr. unfold inversesqrt.
  apply Rdiv_lt_0_compat; [lra | apply sqrt_lt_R0; exact Hr].
Qed.

Lemma inversesqrt_sqr (r : R) : 0 < r -> inversesqrt r * inversesqrt r * r = 1.
Proof.
  intros Hr. unfold inversesqrt.
  assert (Hs : 0 < sqrt r) by (apply sqrt_lt_R0; exact Hr).
  assert (E : sqrt r * sqrt r = r) by (apply sqrt_sqrt; lra).
  rewrite <- E at 3. field. lra.
Qed.

Lemma inversesqrt_1 : inversesqrt 1 = 1.
Proof. unfold inversesqrt. rewrite sqrt_1. field. Qed.

Lemma normalize_unit (p : dvec3) :
  p <> Glm.zero -> dot (normalize p) (normalize p) = 1.
Proof.
  intros Hp. unfold normalize.
  rewrite dot_scale_l, dot_scale_r, <- Rmult_assoc.
  apply inversesqrt_sqr, dot_self_pos, Hp.
Qed.

Lemma normalize_of_unit (p : dvec3) : dot p p = 1 -> normalize p = p.
Proof.
  intros E. unfold normalize. rewrite E, inversesqrt_1. apply scale_1.
Qed.

Lemma normalize_nonzero (p : dvec3) : p <> Glm.zero -> normalize p <> Glm.zero.
Proof.
  intros Hp E. apply Hp. unfold normalize in E.
  apply scale_eq_zero in E; auto.
  apply Rgt_not_eq, inversesqrt_pos, dot_self_pos, Hp.
Qed.

(* ================================================================== *)
(** ** Order facts on [double_inf] *)
(* ================================================================== *)

Lemma not_dlt_INFINITY (p : double_inf) : ~ dlt p INFINITY -> p = INFINITY.
Proof. destruct p; simpl; intros Hn; [exfalso; apply Hn; exact I | reflexivity]. Qed.

Lemma dlt_INFINITY_iff (p : double_inf) : dlt p INFINITY <-> p <> INFINITY.
Proof.
  destruct p; simpl; split; intros Hp; try discriminate; auto;
    try contradiction.
Qed.

Lemma not_dlt_dle (p q : double_inf) : ~ dlt p q -> dle q p.
Proof. destruct p, q; simpl; intros Hn; try lra; auto. Qed.

Lemma dlt_dle (p q : double_inf) : dlt p q -> dle p q.
Proof. destruct p, q; simpl; intros Hn; try lra; auto. Qed.

Lemma dlt_dle_trans (p q r : double_inf) : dlt p q -> dle q r -> dlt p r.
Proof. destruct p, q, r; simpl; intros; try lra; auto. Qed.

Lemma dle_trans (p q r : double_inf) : dle p q -> dle q r -> dle p r.
Proof. destruct p, q, r; simpl; intros; try lra; auto; try contradiction. Qed.

Lemma dle_refl (p : double_inf) : dle p p.
Proof. destruct p; simpl; auto; lra. Qed.

Lemma dle_not_dlt (p q : double_inf) : dle p q -> ~ dlt q p.
Proof. destruct p, q; simpl; intros; try lra; auto. Qed.

(* ================================================================== *)
(** ** Properties of the embedded code *)
(* ================================================================== *)

Section Properties.

Context `{HD : HitRecordDecl}.

(* ---------------------------------------------------------------- *)
(** *** Plane::findIntersect *)

Lemma Plane_findIntersect_hit (p : Plane) (ray : Ray) :
  dot (direct ray) (n p) < 0 ->
  Plane_findIntersect p ray =
  mk_HitRecord
    (Fin (dot (a p - origin ray) (n p) / dot (direct ray) (n p)))
    (origin ray
     + (dot (a p - origin ray) (n p) / dot (direct ray) (n p)) * direct ray)
    (n p) (Surface_material p) (uv HitRecord_default).
Proof.
  intros Hd. unfold Plane_findIntersect.
  destruct (Rlt_dec _ 0) as [_|Hn]; [reflexivity | contradiction].
Qed.

Lemma Plane_findIntersect_miss (p : Plane) (ray : Ray) :
  dot (direct ray) (n p) >= 0 ->
  Plane_findIntersect p ray = set_t HitRecord_default INFINITY.
Proof.
  intros Hd. unfold Plane_findIntersect.
  destruct (Rlt_dec _ 0) as [Hl|_]; [lra | reflexivity].
Qed.

(** C1.  For every plane and every ray, [findIntersect] returns a record
    with [t = INFINITY] exactly when [dot(direction, n) >= 0]; when the dot
    product is negative it returns
    [t = dot(a - origin, n) / dot(direction, n)], with [surfaceNormal = n],
    [interceptPoint = origin + t * direction] and the plane's material. *)
Theorem Plane_findIntersect_spec (p : Plane) (ray : Ray) :
  let h := Plane_findIntersect p ray in
  let denominator := dot (direct ray) (n p) in
  let t0 := dot (a p - origin ray) (n p) / denominator in
  (t h = INFINITY <-> denominator >= 0) /\
  (denominator < 0 ->
     t h = Fin t0 /\
     surfaceNormal h = n p /\
     interceptPoint h = (origin ray + t0 * direct ray)%vec /\
     material h = Surface_material p).
Proof.
  cbv zeta. split.
  - split.
    + intros E. destruct (Rlt_le_dec (dot (direct ray) (n p)) 0) as [L|G].
      * rewrite (Plane_findIntersect_hit _ _ L) in E. discriminate E.
      * lra.
    + intros G. rewrite (Plane_findIntersect_miss _ _ G). reflexivity.
  - intros L. rewrite (Plane_findIntersect_hit _ _ L). simpl. auto.
Qed.

(** C5.  When [findIntersect] registers a hit at parameter [t0], the hit
    point lies on the plane:
    [dot(origin + t0 * direction - a, n) = 0] (in exact arithmetic). *)
Theorem Plane_hit_point_on_plane (p : Plane) (ray : Ray) (t0 : R) :
  t (Plane_findIntersect p ray) = Fin t0 ->
  dot (origin ray + t0 * direct ray - a p) (n p) = 0.
Proof.
  intros E.
  destruct (Rlt_le_dec (dot (direct ray) (n p)) 0) as [L|G].
  - rewrite (Plane_findIntersect_hit _ _ L) in E. simpl in E.
    injection E as E. subst t0.
    destruct p as [[ax ay az] [nx ny nz] m], ray as [[ox oy oz] [dx dy dz]].
    vec_unfold. field. lra.
  - rewrite (Plane_findIntersect_miss p ray) in E by lra. discriminate E.
Qed.

(* ---------------------------------------------------------------- *)
(** *** RayTracer::findClosestIntersection *)

(** What the scan has found after a list of surfaces, started from [init]:
    either nothing beat [init], or the record of some surface [s] did, all
    surfaces before [s] report a strictly larger [t] and all surfaces after
    it report a [t] at least as large. *)
Definition scan_result (ray : Ray) (ss : list Surface)
           (init r : HitRecord) : Prop :=
  (r = init /\
   forall s, In s ss -> dle (t init) (t (findIntersect s ray)))
  \/
  (exists pre s post,
      ss = pre ++ s :: post /\
      r = findIntersect s ray /\
      dlt (t r) (t init) /\
      (forall s', In s' pre -> dlt (t r) (t (findIntersect s' ray))) /\
      (forall s', In s' post -> dle (t r) (t (findIntersect s' ray)))).

Lemma closer_scan (ray : Ray) (ss : list Surface) (init : HitRecord) :
  scan_result ray ss init (fold_left (closer ray) ss init).
Proof.
  induction ss as [|s0 ss IH] using rev_ind.
  - left. split; [reflexivity | intros s []].
  - rewrite fold_left_app. simpl.
    set (r := fold_left (closer ray) ss init) in *.
    unfold closer at 1.
    destruct (dlt_dec (t (findIntersect s0 ray)) (t r)) as [L|G].
    + (* the new surface is strictly closer *)
      right. exists ss, s0, []. split; [reflexivity|].
      split; [reflexivity|].
      destruct IH as [[E Hall]|(pre & s & post & E & Er & Hlt & Hpre & Hpost)].
      * rewrite E in L. split; [exact L|]. split; [|intros s' []].
        intros s' Hin. eapply dlt_dle_trans; [exact L | apply Hall, Hin].
      * split; [eapply dlt_dle_trans; [exact L | apply dlt_dle, Hlt]|].
        split; [|intros s' []].
        intros s' Hin. rewrite E in Hin.
        apply in_app_or in Hin. destruct Hin as [Hin|[<-|Hin]].
        -- eapply dlt_dle_trans; [exact L | apply dlt_dle, Hpre, Hin].
        -- rewrite <- Er. exact L.
        -- eapply dlt_dle_trans; [exact L | apply Hpost, Hin].
    + (* the current record stays *)
      apply not_dlt_dle in G.
      destruct IH as [[E Hall]|(pre & s & post & E & Er & Hlt & Hpre & Hpost)].
      * left. split; [exact E|].
        intros s' Hin. apply in_app_or in Hin. destruct Hin as [Hin|[<-|[]]].
        -- apply Hall, Hin.
        -- rewrite <- E. exact G.
      * right. exists pre, s, (post ++ [s0]).
        split; [rewrite E, <- app_assoc; reflexivity|].
        split; [exact Er|]. split; [exact Hlt|]. split; [exact Hpre|].
        intros s' Hin. apply in_app_or in Hin. destruct Hin as [Hin|[<-|[]]].
        -- apply Hpost, Hin.
        -- exact G.
Qed.

Lemma dle_INFINITY_l (p : double_inf) : dle INFINITY p -> p = INFINITY.
Proof. destruct p; simpl; [intros [] | reflexivity]. Qed.

(** C2.  [findClosestIntersection] returns a record whose [t] is the
    minimum of the [t] reported by the surfaces.  When no surface reports a
    finite [t] it is a record with [t = INFINITY]; otherwise it is the
    record of a surface with finite [t] such that every surface earlier in
    the list reports a strictly larger [t] (so of two surfaces with equal
    [t] the first in iteration order is returned). *)
Theorem findClosestIntersection_spec (rt : RayTracer) (ray : Ray) :
  let r := findClosestIntersection rt ray in
  (forall s, In s (surfaces rt) -> dle (t r) (t (findIntersect s ray))) /\
  (((forall s, In s (surfaces rt) -> t (findIntersect s ray) = INFINITY) /\
    r = set_t HitRecord_default INFINITY /\ t r = INFINITY)
   \/
   (exists pre s post (t0 : R),
       surfaces rt = pre ++ s :: post /\
       r = findIntersect s ray /\
       t r = Fin t0 /\
       (forall s', In s' pre -> dlt (t r) (t (findIntersect s' ray))) /\
       (forall s', In s' post -> dle (t r) (t (findIntersect s' ray))))).
Proof.
  cbv zeta. unfold findClosestIntersection.
  destruct (closer_scan ray (surfaces rt) (set_t HitRecord_default INFINITY))
    as [[E Hall]|(pre & s & post & E & Er & Hlt & Hpre & Hpost)].
  - rewrite E. simpl. split.
    + intros s Hin. rewrite (dle_INFINITY_l _ (Hall s Hin)). exact I.
    + left. split; [|split; reflexivity].
      intros s Hin. apply dle_INFINITY_l, (Hall s Hin).
  - set (r := fold_left _ _ _) in *. split.
    + intros s' Hin. rewrite E in Hin.
      apply in_app_or in Hin. destruct Hin as [Hin|[<-|Hin]].
      * apply dlt_dle, Hpre, Hin.
      * rewrite <- Er. apply dle_refl.
      * apply Hpost, Hin.
    + right. simpl in Hlt.
      destruct (t r) as [t0|] eqn:Et; [|contradiction].
      exists pre, s, post, t0. auto.
Qed.

Lemma closest_le_all (rt : RayTracer) (ray : Ray) (s : Surface) :
  In s (surfaces rt) ->
  dle (t (findClosestIntersection rt ray)) (t (findIntersect s ray)).
Proof.
  unfold findClosestIntersection.
  destruct (closer_scan ray (surfaces rt) (set_t HitRecord_default INFINITY))
    as [[E Hall]|(pre & s1 & post & E & Er & Hlt & Hpre & Hpost)];
    intros Hin.
  - rewrite E. apply Hall, Hin.
  - rewrite E in Hin. apply in_app_or in Hin. destruct Hin as [Hin|[<-|Hin]].
    + apply dlt_dle, Hpre, Hin.
    + rewrite <- Er. apply dle_refl.
    + apply Hpost, Hin.
Qed.

Lemma closest_comes_from (rt : RayTracer) (ray : Ray) :
  t (findClosestIntersection rt ray) <> INFINITY ->
  exists s, In s (surfaces rt) /\
            findClosestIntersection rt ray = findIntersect s ray.
Proof.
  unfold findClosestIntersection.
  destruct (closer_scan ray (surfaces rt) (set_t HitRecord_default INFINITY))
    as [[E Hall]|(pre & s1 & post & E & Er & Hlt & Hpre & Hpost)];
    intros Hfin.
  - rewrite E in Hfin. exfalso. apply Hfin. reflexivity.
  - exists s1. split; [|exact Er].
    rewrite E. apply in_or_app. right. left. reflexivity.
Qed.

(* ---------------------------------------------------------------- *)
(** *** RayTracer::traceRay *)

Lemma traceRay_miss (rt : RayTracer) (ray : Ray) (lvl : Z) :
  t (findClosestIntersection rt ray) = INFINITY ->
  traceRay rt ray lvl = defaultColor rt.
Proof.
  intros E. unfold traceRay.
  destruct (dlt_dec _ INFINITY) as [L|_]; [|reflexivity].
  rewrite E in L. destruct L.
Qed.

Lemma traceRay_hit (rt : RayTracer) (ray : Ray) (lvl : Z) :
  t (findClosestIntersection rt ray) <> INFINITY ->
  traceRay rt ray lvl =
  fold_left (add_light ray (findClosestIntersection rt ray)) (lights rt)
            (getEmisive (material (findClosestIntersection rt ray))).
Proof.
  intros Hfin. unfold traceRay.
  destruct (dlt_dec _ INFINITY) as [_|G]; [reflexivity|].
  apply not_dlt_INFINITY in G. contradiction.
Qed.

(** The falloff factor of a light is a real number: the light is no spot
    light with a cut-off cosine of exactly 1, the one case in which the
    source divides by zero when it computes the factor. *)
Definition falloff_defined (l : LightSource) : Prop :=
  match l with
  | SpotLight _ _ _ cutOff => cutOff <> 1
  | _ => True
  end.

(** Every shipped [getLocalIllumination] yields black, as soon as scaling
    black gives black and the falloff factor is defined. *)
Lemma getLocalIllumination_stub_BLACK `{!BlackIsNoLight} (l : LightSource)
      (eyeVector position normal : dvec3) (m : Material) (st : dvec2) :
  falloff_defined l ->
  getLocalIllumination l eyeVector position normal m st = BLACK.
Proof.
  intros _. destruct l; simpl; try reflexivity.
  unfold SpotLight_getLocalIllumination.
  destruct (Rgt_dec _ _); [|reflexivity].
  unfold PositionalLight_getLocalIllumination. apply color_scale_BLACK.
Qed.

Lemma stub_lights_add_nothing `{!BlackIsNoLight} (ray : Ray) (h : HitRecord)
      (ls : list LightSource) (c : color) :
  Forall falloff_defined ls ->
  fold_left (add_light ray h) ls c = c.
Proof.
  intros Hall. revert c.
  induction Hall as [|l ls Hl _ IH]; intros c; simpl; [reflexivity|].
  unfold add_light at 2.
  rewrite (getLocalIllumination_stub_BLACK _ _ _ _ _ _ Hl), color_add_BLACK.
  apply IH.
Qed.

(** C3, as amended.  [traceRay] returns [defaultColor] whenever the
    closest-hit search reports no hit ([t = INFINITY]); when there is a hit
    it returns the emissive color of the hit material plus, light after
    light, the value of [getLocalIllumination(-ray.direction, hitPoint,
    hitNormal, hitMaterial, hitUV)].  So the background color is returned
    exactly when there is no hit or the shaded color of the hit happens to be
    the background color.  With the shipped stubs, when black contributes
    nothing and no spot light of the scene has a cut-off cosine of exactly 1,
    a hitting ray returns exactly the emissive color. *)
Theorem traceRay_cases (rt : RayTracer) (ray : Ray) (lvl : Z) :
  let h := findClosestIntersection rt ray in
  let shaded :=
    fold_left
      (fun totalColor light =>
         color_add totalColor
           (getLocalIllumination light (- direct ray)%vec (interceptPoint h)
              (surfaceNormal h) (material h) (uv h)))
      (lights rt) (getEmisive (material h)) in
  (t h = INFINITY -> traceRay rt ray lvl = defaultColor rt) /\
  (t h <> INFINITY -> traceRay rt ray lvl = shaded) /\
  (traceRay rt ray lvl = defaultColor rt <->
   t h = INFINITY \/ shaded = defaultColor rt) /\
  (BlackIsNoLight ->
   Forall falloff_defined (lights rt) ->
   t h <> INFINITY -> traceRay rt ray lvl = getEmisive (material h)).
Proof.
  cbv zeta. split; [|split; [|split]].
  - apply traceRay_miss.
  - intros Hfin. rewrite (traceRay_hit _ _ _ Hfin). reflexivity.
  - destruct (t (findClosestIntersection rt ray)) as [t0|] eqn:Et.
    + assert (Hfin : t (findClosestIntersection rt ray) <> INFINITY)
        by (rewrite Et; discriminate).
      rewrite (traceRay_hit _ _ _ Hfin). split.
      * intros E. right. exact E.
      * intros [E|E]; [discriminate E | exact E].
    + split; [intros _; left; reflexivity|].
      intros _. apply traceRay_miss, Et.
  - intros Hblack Hlights Hfin. rewrite (traceRay_hit _ _ _ Hfin).
    apply stub_lights_add_nothing, Hlights.
Qed.

(* ---------------------------------------------------------------- *)
(** *** No lower bound on [t] *)

Lemma Plane_behind_origin (p : Plane) (ray : Ray) :
  dot (direct ray) (n p) < 0 ->
  dot (origin ray - a p) (n p) < 0 ->
  exists t0, t (Plane_findIntersect p ray) = Fin t0 /\ t0 < 0.
Proof.
  intros Hd Hside. rewrite (Plane_findIntersect_hit _ _ Hd). simpl.
  eexists. split; [reflexivity|].
  assert (Hnum : 0 < dot (a p - origin ray) (n p)).
  { destruct p as [[ax ay az] [nx ny nz] m], ray as [[ox oy oz] d].
    vec_unfold. lra. }
  unfold Rdiv.
  assert (Hinv : / dot (direct ray) (n p) < 0) by (apply Rinv_neg; exact Hd).
  nra.
Qed.

Lemma negative_t_wins (rt : RayTracer) (ray : Ray) (p : Plane)
      (pre post : list Surface) (t0 : R) :
  surfaces rt = pre ++ Plane_as_Surface p :: post ->
  t (Plane_findIntersect p ray) = Fin t0 -> t0 < 0 ->
  (forall s, In s (pre ++ post) -> dle (Fin 0) (t (findIntersect s ray))) ->
  findClosestIntersection rt ray = Plane_findIntersect p ray.
Proof.
  intros E Et Hneg Hothers.
  assert (Hin : In (Plane_as_Surface p) (surfaces rt)).
  { rewrite E. apply in_or_app. right. left. reflexivity. }
  pose proof (closest_le_all rt ray _ Hin) as Hmin. simpl in Hmin.
  rewrite Et in Hmin.
  destruct (t (findClosestIntersection rt ray)) as [r0|] eqn:Er;
    [|destruct Hmin].
  simpl in Hmin.
  destruct (closest_comes_from rt ray) as (s & Hs & Es).
  { rewrite Er. discriminate. }
  rewrite E in Hs. apply in_app_or in Hs. destruct Hs as [Hs|[<-|Hs]].
  - exfalso. assert (H0 : dle (Fin 0) (t (findIntersect s ray)))
      by (apply Hothers, in_or_app; left; exact Hs).
    rewrite <- Es, Er in H0. simpl in H0. lra.
  - exact Es.
  - exfalso. assert (H0 : dle (Fin 0) (t (findIntersect s ray)))
      by (apply Hothers, in_or_app; right; exact Hs).
    rewrite <- Es, Er in H0. simpl in H0. lra.
Qed.

(** C8.  [Plane::findIntersect] puts no lower bound on [t]: there is a ray
    whose direction opposes the plane normal and whose origin lies on the
    far side of the plane, for which the reported [t] is strictly negative.
    In every scene that holds this plane, and whose other surfaces all
    report a non-negative [t] (or no hit) for the ray,
    [findClosestIntersection] returns the record with the negative [t], and
    [traceRay] shades it instead of returning the background color. *)
Theorem negative_t_is_accepted (m : Material) :
  exists (p : Plane) (ray : Ray) (t0 : R),
    dot (direct ray) (n p) < 0 /\
    dot (origin ray - a p) (n p) < 0 /\
    t (Plane_findIntersect p ray) = Fin t0 /\
    t0 < 0 /\
    forall (rt : RayTracer) (pre post : list Surface) (lvl : Z),
      surfaces rt = pre ++ Plane_as_Surface p :: post ->
      (forall s, In s (pre ++ post) ->
                 dle (Fin 0) (t (findIntersect s ray))) ->
      let h := findClosestIntersection rt ray in
      h = Plane_findIntersect p ray /\
      t h = Fin t0 /\
      traceRay rt ray lvl =
      fold_left (add_light ray h) (lights rt) (getEmisive m).
Proof.
  set (p := mk_Plane (mk_dvec3 0 0 0) (mk_dvec3 0 0 1) m).
  set (ray := mk_Ray (mk_dvec3 0 0 (-1)) (mk_dvec3 0 0 (-1))).
  assert (Hd : dot (direct ray) (n p) < 0) by (vec_unfold; lra).
  assert (Hside : dot (origin ray - a p) (n p) < 0) by (vec_unfold; lra).
  destruct (Plane_behind_origin p ray Hd Hside) as (t0 & Et & Hneg).
  exists p, ray, t0. repeat (split; [assumption|]).
  intros rt pre post lvl E Hothers. cbv zeta.
  pose proof (negative_t_wins rt ray p pre post t0 E Et Hneg Hothers) as Eh.
  split; [exact Eh|]. split; [rewrite Eh; exact Et|].
  rewrite traceRay_hit.
  - rewrite Eh at 2. rewrite (Plane_findIntersect_hit _ _ Hd). reflexivity.
  - rewrite Eh, Et. discriminate.
Qed.

(* ---------------------------------------------------------------- *)
(** *** SpotLight::getLocalIllumination *)

(** A query point on the spot axis, at any distance [k > 0] from the light,
    sees the cosine 1. *)
Lemma SpotLight_on_axis_cos (lp sd : dvec3) (k : R) :
  dot sd sd = 1 -> 0 < k ->
  dot (- normalize (lp - (lp + k * sd)))%vec sd = 1.
Proof.
  intros Hsd Hk.
  assert (E : (lp - (lp + k * sd))%vec = ((- k) * sd)%vec) by vec_ring.
  rewrite E. unfold normalize.
  rewrite dot_scale_l, dot_scale_r, Hsd.
  replace (- k * (- k * 1)) with (k * k) by ring.
  unfold inversesqrt. rewrite sqrt_square by lra.
  destruct sd as [sx sy sz]. vec_unfold.
  replace (- (1 / k * (- k * sx)) * sx + - (1 / k * (- k * sy)) * sy +
           - (1 / k * (- k * sz)) * sz)
    with (sx * sx + sy * sy + sz * sz) by (field; lra).
  exact Hsd.
Qed.

(** C4.  With [cosAngle = dot(-normalize(lightPosition - point), spotAxis)]:
    if [cosAngle > cutoffCosine] (strictly) the spot light returns
    [(1 - (1 - cosAngle) / (1 - cutoffCosine))] times the positional
    light's illumination, otherwise exactly black.  When [cosAngle = 1] and
    the cutoff is below 1 the falloff factor is 1; a point with
    [cosAngle = cutoffCosine] is excluded and gets black. *)
Theorem SpotLight_getLocalIllumination_spec
        (base : LightSourceFields) (lightPosition spotDirection : dvec3)
        (cutOff : R) (eyeVector position normal : dvec3) (m : Material)
        (st : dvec2) :
  let cosAngle :=
    dot (- normalize (lightPosition - position))%vec spotDirection in
  let fallOff := 1 - (1 - cosAngle) / (1 - cutOff) in
  let positional :=
    PositionalLight_getLocalIllumination base lightPosition
      eyeVector position normal m st in
  let result :=
    getLocalIllumination
      (SpotLight base lightPosition spotDirection cutOff)
      eyeVector position normal m st in
  (cosAngle > cutOff -> result = color_scale fallOff positional) /\
  (~ cosAngle > cutOff -> result = BLACK) /\
  (cosAngle = 1 -> cutOff < 1 ->
     fallOff = 1 /\ result = color_scale 1 positional) /\
  (cosAngle = cutOff -> result = BLACK).
Proof.
  cbv zeta. simpl. unfold SpotLight_getLocalIllumination.
  set (cosAngle :=
         dot (- normalize (lightPosition - position))%vec spotDirection).
  destruct (Rgt_dec cosAngle cutOff) as [G|NG].
  - split; [reflexivity|]. split; [contradiction|]. split.
    + intros E1 Hc. rewrite E1.
      replace (1 - (1 - 1) / (1 - cutOff)) with 1 by (field; lra).
      split; reflexivity.
    + intros E. exfalso. lra.
  - split; [contradiction|]. split; [reflexivity|]. split.
    + intros E1 Hc. exfalso. apply NG. lra.
    + reflexivity.
Qed.

(* ---------------------------------------------------------------- *)
(** *** getLightVector, getLightDistance, and the [enabled] flag *)

(** C7.  [DirectionalLight::getLightDistance] is [INFINITY] at every point;
    [PositionalLight::getLightDistance], which [SpotLight] inherits, is the
    Euclidean distance [|lightPosition - p|], a finite non-negative
    number. *)
Theorem getLightDistance_spec
        (base : LightSourceFields) (lightDirection lightPosition : dvec3)
        (spotDirection : dvec3) (cutOff : R) (p : dvec3) :
  getLightDistance (DirectionalLight base lightDirection) p = INFINITY /\
  getLightDistance (PositionalLight base lightPosition) p
  = Fin (Glm.length (lightPosition - p)) /\
  getLightDistance (SpotLight base lightPosition spotDirection cutOff) p
  = Fin (Glm.length (lightPosition - p)) /\
  0 <= Glm.length (lightPosition - p).
Proof.
  assert (E : distance lightPosition p = Glm.length (lightPosition - p)).
  { unfold distance, Glm.length. rewrite dot_sub_swap. reflexivity. }
  simpl. rewrite E. repeat split. apply sqrt_pos.
Qed.

(** C9.  The base (ambient-only) light answers [getLightVector] with the
    zero vector and [getLightDistance] with [0.0] (not [INFINITY]) at every
    point. *)
Theorem AmbientLight_vector_and_distance
        (base : LightSourceFields) (p : dvec3) :
  getLightVector (AmbientLight base) p = mk_dvec3 0 0 0 /\
  getLightDistance (AmbientLight base) p = Fin 0 /\
  getLightDistance (AmbientLight base) p <> INFINITY.
Proof. simpl. repeat split. discriminate. Qed.

(** C10.  For each of the four kinds of light, [getLocalIllumination] does
    not depend on [enabled]: setting the flag to any value leaves the
    result unchanged.  (When black is absorbed by scaling, the result is
    black whatever the flag.) *)
Theorem getLocalIllumination_ignores_enabled
        (l : LightSource) (e : bool)
        (eyeVector position normal : dvec3) (m : Material) (st : dvec2) :
  getLocalIllumination (set_enabled e l) eyeVector position normal m st
  = getLocalIllumination l eyeVector position normal m st /\
  (BlackIsNoLight ->
   getLocalIllumination (set_enabled e l) eyeVector position normal m st
   = BLACK).
Proof.
  split.
  - destruct l; reflexivity.
  - intros Hblack. destruct l; simpl; try reflexivity.
    unfold SpotLight_getLocalIllumination.
    destruct (Rgt_dec _ _); [|reflexivity].
    unfold PositionalLight_getLocalIllumination. apply color_scale_BLACK.
Qed.

(* ---------------------------------------------------------------- *)
(** *** RayTracer::setCameraFrame *)

Lemma cross_zero_r (p : dvec3) : cross p Glm.zero = Glm.zero.
Proof. vec_ring. Qed.

Lemma neg_nonzero (p : dvec3) : p <> Glm.zero -> (- p)%vec <> Glm.zero.
Proof.
  intros Hp E. apply Hp. destruct p as [px py pz]. vec_unfold.
  injection E as E1 E2 E3. f_equal; lra.
Qed.

Lemma cross_up_w_nonzero (up vd : dvec3) :
  cross up vd <> Glm.zero ->
  cross up (normalize (- vd)%vec) <> Glm.zero.
Proof.
  intros Hc E.
  assert (Hvd : vd <> Glm.zero).
  { intros ->. apply Hc, cross_zero_r. }
  unfold normalize in E. rewrite cross_scale_r, cross_neg_r in E.
  apply scale_eq_zero in E.
  - apply scale_eq_zero in E; [contradiction | lra].
  - apply Rgt_not_eq, inversesqrt_pos, dot_self_pos, neg_nonzero, Hvd.
Qed.

(** An orthonormal pair [w], [u] is completed by [cross w u]. *)
Lemma frame_from_pair (w0 u0 : dvec3) :
  dot w0 w0 = 1 -> dot u0 u0 = 1 -> dot w0 u0 = 0 ->
  normalize (cross w0 u0) = cross w0 u0 /\
  dot (cross w0 u0) (cross w0 u0) = 1 /\
  dot u0 (cross w0 u0) = 0 /\
  dot (cross w0 u0) w0 = 0 /\
  cross u0 (cross w0 u0) = w0.
Proof.
  intros Hw Hu Hwu.
  assert (Hv : dot (cross w0 u0) (cross w0 u0) = 1).
  { rewrite cross_norm2, Hw, Hu, Hwu. ring. }
  split; [apply normalize_of_unit, Hv|].
  split; [exact Hv|].
  split; [rewrite dot_comm; apply cross_dot_r|].
  split; [apply cross_dot_l|].
  rewrite cross_cross, Hu, (dot_comm u0 w0), Hwu.
  destruct w0, u0. vec_unfold. f_equal; ring.
Qed.

(** C6.  When [up] is not parallel to [viewDirection], the basis computed
    by [setCameraFrame], [w = normalize(-viewDirection)],
    [u = normalize(cross(up, w))], [v = normalize(cross(w, u))], is
    orthonormal and right-handed, and [v] equals [cross(w, u)]: the last
    normalisation changes nothing. *)
Theorem setCameraFrame_orthonormal
        (rt : RayTracer) (viewPosition viewingDirection up : dvec3) :
  cross up viewingDirection <> Glm.zero ->
  let rt' := setCameraFrame rt viewPosition viewingDirection up in
  eye rt' = viewPosition /\
  w rt' = normalize (- viewingDirection)%vec /\
  u rt' = normalize (cross up (w rt')) /\
  v rt' = cross (w rt') (u rt') /\
  dot (u rt') (u rt') = 1 /\
  dot (v rt') (v rt') = 1 /\
  dot (w rt') (w rt') = 1 /\
  dot (u rt') (v rt') = 0 /\
  dot (v rt') (w rt') = 0 /\
  dot (w rt') (u rt') = 0 /\
  cross (u rt') (v rt') = w rt'.
Proof.
  intros Hc. cbv zeta. unfold setCameraFrame. simpl.
  assert (Hvd : viewingDirection <> Glm.zero).
  { intros ->. apply Hc, cross_zero_r. }
  set (w0 := normalize (- viewingDirection)%vec).
  set (u0 := normalize (cross up w0)).
  assert (Hw : dot w0 w0 = 1)
    by (apply normalize_unit, neg_nonzero, Hvd).
  assert (Hu : dot u0 u0 = 1)
    by (apply normalize_unit, cross_up_w_nonzero, Hc).
  assert (Hwu : dot w0 u0 = 0).
  { unfold u0, normalize at 1. rewrite dot_scale_r, (dot_comm w0), cross_dot_r.
    ring. }
  destruct (frame_from_pair w0 u0 Hw Hu Hwu) as (En & Hv & Huv & Hvw & Hr).
  rewrite En. repeat split; assumption.
Qed.

End Properties.

(** A room without lights whose only surface, the plane z = 0, emits the
    very gray that is the background color. *)
Module DemoGray.

Definition floor : @Plane Demo.rgb Demo.emissive_only :=
  @mk_Plane Demo.rgb Demo.emissive_only (mk_dvec3 0 0 0) (mk_dvec3 0 0 1)
            Demo.gray.

Definition room : @RayTracer Demo.rgb Demo.emissive_only :=
  @mk_RayTracer Demo.rgb Demo.emissive_only Demo.gray 2%Z
    [@Plane_as_Surface Demo.rgb Demo.emissive_only Demo.hit0 floor] []
    Glm.zero Glm.zero Glm.zero Glm.zero.

End DemoGray.

(* ================================================================== *)
(** ** The results at work on the demo scene *)
(* ================================================================== *)

Section Witnesses.

Local Existing Instances Demo.rgb Demo.emissive_only Demo.hit0.

Lemma rgb_black : BlackIsNoLight.
Proof.
  split.
  - intros c. destruct c. simpl. vec_unfold. f_equal; ring.
  - intros k. simpl. vec_unfold. f_equal; ring.
Qed.

Lemma floor0_from_above :
  Plane_findIntersect Demo.floor0 Demo.down_from_above =
  mk_HitRecord (Fin 1) (mk_dvec3 0 0 0) (mk_dvec3 0 0 1) Demo.red
               (mk_dvec2 (1/2) (1/2)).
Proof.
  rewrite Plane_findIntersect_hit by (vec_unfold; lra).
  simpl. vec_unfold. f_equal; [f_equal; field | f_equal; field].
Qed.

Lemma floor3_from_above :
  t (Plane_findIntersect Demo.floor3 Demo.down_from_above) = Fin 4.
Proof.
  rewrite Plane_findIntersect_hit by (vec_unfold; lra).
  simpl. vec_unfold. f_equal; field.
Qed.

Lemma floor0_from_below :
  t (Plane_findIntersect Demo.floor0 Demo.down_from_below) = Fin (-1).
Proof.
  rewrite Plane_findIntersect_hit by (vec_unfold; lra).
  simpl. vec_unfold. f_equal; field.
Qed.

Lemma floor3_from_below :
  t (Plane_findIntersect Demo.floor3 Demo.down_from_below) = Fin 2.
Proof.
  rewrite Plane_findIntersect_hit by (vec_unfold; lra).
  simpl. vec_unfold. f_equal; field.
Qed.

(** The hit of [floor0] seen from above lies on the plane. *)
Lemma Plane_hit_point_on_plane_witness :
  t (Plane_findIntersect Demo.floor0 Demo.down_from_above) = Fin 1 /\
  dot (origin Demo.down_from_above + 1 * direct Demo.down_from_above
       - a Demo.floor0)%vec (n Demo.floor0) = 0.
Proof.
  assert (E : t (Plane_findIntersect Demo.floor0 Demo.down_from_above)
              = Fin 1)
    by (rewrite floor0_from_above; reflexivity).
  split; [exact E|].
  exact (Plane_hit_point_on_plane Demo.floor0 Demo.down_from_above 1 E).
Defined.

(** Seen from above, [floor0] is hit at [t = 1] with its own normal and
    material. *)
Lemma Plane_findIntersect_spec_witness :
  dot (direct Demo.down_from_above) (n Demo.floor0) < 0 /\
  surfaceNormal (Plane_findIntersect Demo.floor0 Demo.down_from_above)
  = mk_dvec3 0 0 1 /\
  material (Plane_findIntersect Demo.floor0 Demo.down_from_above)
  = Demo.red.
Proof.
  assert (L : dot (direct Demo.down_from_above) (n Demo.floor0) < 0)
    by (vec_unfold; lra).
  destruct (Plane_findIntersect_spec Demo.floor0 Demo.down_from_above)
    as [_ H].
  destruct (H L) as (_ & En & _ & Em).
  split; [exact L|]. split; [exact En | exact Em].
Defined.

Lemma floor0'_from_above :
  t (Plane_findIntersect Demo.floor0' Demo.down_from_above) = Fin 1.
Proof.
  rewrite Plane_findIntersect_hit by (vec_unfold; lra).
  simpl. vec_unfold. f_equal; field.
Qed.

(** Evaluation of the scan over a list of planes whose records are known. *)
Ltac scan_planes :=
  unfold findClosestIntersection; simpl; unfold closer; simpl.

Lemma closest_from_above :
  findClosestIntersection
    (Demo.scene [Plane_as_Surface Demo.floor0; Plane_as_Surface Demo.floor3])
    Demo.down_from_above
  = Plane_findIntersect Demo.floor0 Demo.down_from_above.
Proof.
  scan_planes. rewrite floor0_from_above. simpl.
  rewrite floor3_from_above. simpl.
  destruct (Rlt_dec 4 1) as [L|_]; [exfalso; lra | reflexivity].
Qed.

Lemma closest_looking_up :
  findClosestIntersection
    (Demo.scene [Plane_as_Surface Demo.floor0; Plane_as_Surface Demo.floor3])
    Demo.up_from_above
  = set_t HitRecord_default INFINITY.
Proof.
  scan_planes.
  rewrite !Plane_findIntersect_miss by (vec_unfold; lra).
  reflexivity.
Qed.

(** Two coincident planes: the scan keeps the material of the first. *)
Lemma findClosestIntersection_spec_witness :
  material
    (findClosestIntersection
       (Demo.scene
          [Plane_as_Surface Demo.floor0; Plane_as_Surface Demo.floor0'])
       Demo.down_from_above)
  = Demo.red.
Proof.
  destruct (findClosestIntersection_spec
              (Demo.scene [Plane_as_Surface Demo.floor0;
                           Plane_as_Surface Demo.floor0'])
              Demo.down_from_above)
    as [_ [(Hall & _)|(pre & s & post & t0 & E & Er & Et & Hpre & _)]].
  - exfalso.
    assert (H : t (findIntersect (Plane_as_Surface Demo.floor0)
                                 Demo.down_from_above) = INFINITY)
      by (apply Hall; left; reflexivity).
    simpl in H. rewrite floor0_from_above in H. discriminate H.
  - simpl in E. destruct pre as [|s0 pre].
    + injection E as E0 _. rewrite Er, <- E0. simpl.
      rewrite floor0_from_above. reflexivity.
    + exfalso. injection E as E0 E1.
      assert (H0 : dlt (t (findClosestIntersection
                             (Demo.scene [Plane_as_Surface Demo.floor0;
                                          Plane_as_Surface Demo.floor0'])
                             Demo.down_from_above))
                       (t (findIntersect s0 Demo.down_from_above)))
        by (apply Hpre; left; reflexivity).
      destruct pre as [|s1 pre].
      * injection E1 as E1 _. rewrite Er, <- E1, <- E0 in H0.
        simpl in H0. rewrite floor0'_from_above, floor0_from_above in H0.
        simpl in H0. lra.
      * injection E1 as _ E2. destruct pre; discriminate E2.
Defined.

Lemma demo_lights_falloff_defined (ss : list Surface) :
  Forall falloff_defined (lights (Demo.scene ss)).
Proof.
  simpl. repeat constructor. simpl. intros E. lra.
Qed.

(** A ray that hits the red floor is colored red; one that looks away is
    colored with the background gray. *)
Lemma traceRay_cases_witness :
  traceRay
    (Demo.scene [Plane_as_Surface Demo.floor0; Plane_as_Surface Demo.floor3])
    Demo.down_from_above 2
  = Demo.red /\
  traceRay
    (Demo.scene [Plane_as_Surface Demo.floor0; Plane_as_Surface Demo.floor3])
    Demo.up_from_above 2
  = Demo.gray.
Proof.
  split.
  - destruct (traceRay_cases
                (Demo.scene [Plane_as_Surface Demo.floor0;
                             Plane_as_Surface Demo.floor3])
                Demo.down_from_above 2) as (_ & _ & _ & Hstub).
    rewrite Hstub.
    + rewrite closest_from_above, floor0_from_above. reflexivity.
    + exact rgb_black.
    + apply demo_lights_falloff_defined.
    + rewrite closest_from_above, floor0_from_above. discriminate.
  - destruct (traceRay_cases
                (Demo.scene [Plane_as_Surface Demo.floor0;
                             Plane_as_Surface Demo.floor3])
                Demo.up_from_above 2) as (Hmiss & _).
    rewrite Hmiss; [reflexivity|].
    rewrite closest_looking_up. reflexivity.
Defined.

Lemma gray_floor_from_above :
  Plane_findIntersect DemoGray.floor Demo.down_from_above =
  mk_HitRecord (Fin 1) (mk_dvec3 0 0 0) (mk_dvec3 0 0 1) Demo.gray
               (mk_dvec2 (1/2) (1/2)).
Proof.
  rewrite Plane_findIntersect_hit by (vec_unfold; lra).
  simpl. vec_unfold. f_equal; [f_equal; field | f_equal; field].
Qed.

(** C3, counterexample.  The background color is not returned only when
    there is no hit: in a room without lights whose floor emits the
    background gray, the ray looking down hits the floor at [t = 1] and still
    gets the background color. *)
Lemma traceRay_background_on_hit :
  t (findClosestIntersection DemoGray.room Demo.down_from_above) = Fin 1 /\
  traceRay DemoGray.room Demo.down_from_above 2 = defaultColor DemoGray.room.
Proof.
  assert (E : findClosestIntersection DemoGray.room Demo.down_from_above
              = Plane_findIntersect DemoGray.floor Demo.down_from_above).
  { scan_planes. rewrite gray_floor_from_above. reflexivity. }
  split.
  - rewrite E, gray_floor_from_above. reflexivity.
  - rewrite traceRay_hit.
    + rewrite E, gray_floor_from_above. reflexivity.
    + rewrite E, gray_floor_from_above. discriminate.
Qed.

(** The point one unit down the axis of the demo spot light: the falloff
    factor is 1 there. *)
Lemma SpotLight_getLocalIllumination_spec_witness :
  dot (- normalize (Demo.spot_position
                    - (Demo.spot_position + 1 * Demo.spot_axis)))%vec
      Demo.spot_axis = 1 /\
  getLocalIllumination Demo.spot (mk_dvec3 0 0 1)
    (Demo.spot_position + 1 * Demo.spot_axis)%vec (mk_dvec3 0 0 1)
    Demo.red (mk_dvec2 (1/2) (1/2))
  = color_scale 1 BLACK.
Proof.
  assert (Hcos : dot (- normalize (Demo.spot_position
                        - (Demo.spot_position + 1 * Demo.spot_axis)))%vec
                     Demo.spot_axis = 1).
  { apply SpotLight_on_axis_cos; [vec_unfold; ring | lra]. }
  split; [exact Hcos|].
  destruct (SpotLight_getLocalIllumination_spec
              Demo.spot_fields
              Demo.spot_position Demo.spot_axis (1/2) (mk_dvec3 0 0 1)
              (Demo.spot_position + 1 * Demo.spot_axis)%vec (mk_dvec3 0 0 1)
              Demo.red (mk_dvec2 (1/2) (1/2))) as (_ & _ & Haxis & _).
  destruct (Haxis Hcos) as [_ E]; [lra|].
  exact E.
Defined.

(** Looking down the negative z axis with [up] along y. *)
Lemma setCameraFrame_orthonormal_witness :
  cross (mk_dvec3 0 1 0) (mk_dvec3 0 0 (-1)) <> Glm.zero /\
  let rt' := setCameraFrame (Demo.scene []) (mk_dvec3 0 0 5)
                            (mk_dvec3 0 0 (-1)) (mk_dvec3 0 1 0) in
  dot (u rt') (v rt') = 0 /\ cross (u rt') (v rt') = w rt'.
Proof.
  assert (Hc : cross (mk_dvec3 0 1 0) (mk_dvec3 0 0 (-1)) <> Glm.zero).
  { intros E. vec_unfold. injection E as E1 _ _. lra. }
  split; [exact Hc|].
  destruct (setCameraFrame_orthonormal (Demo.scene []) (mk_dvec3 0 0 5)
              (mk_dvec3 0 0 (-1)) (mk_dvec3 0 1 0) Hc)
    as (_ & _ & _ & _ & _ & _ & _ & Huv & _ & _ & Hr).
  split; [exact Huv | exact Hr].
Defined.

(** A scene made of the plane found by the theorem alone. *)
Lemma negative_t_is_accepted_witness :
  exists (p : Plane) (ray : Ray) (t0 : R),
    t0 < 0 /\
    t (findClosestIntersection (Demo.scene [Plane_as_Surface p]) ray)
    = Fin t0.
Proof.
  destruct (negative_t_is_accepted Demo.green)
    as (p & ray & t0 & _ & _ & _ & Hneg & H).
  exists p, ray, t0. split; [exact Hneg|].
  destruct (H (Demo.scene [Plane_as_Surface p]) [] [] 2%Z) as (_ & Et & _).
  - reflexivity.
  - intros s [].
  - exact Et.
Defined.

(** The red floor lies behind the ray that starts below it, the green
    floor ahead; the scan returns the red floor, at [t = -1]. *)
Lemma behind_beats_ahead :
  findClosestIntersection
    (Demo.scene [Plane_as_Surface Demo.floor3; Plane_as_Surface Demo.floor0])
    Demo.down_from_below
  = Plane_findIntersect Demo.floor0 Demo.down_from_below /\
  t (Plane_findIntersect Demo.floor0 Demo.down_from_below) = Fin (-1) /\
  t (Plane_findIntersect Demo.floor3 Demo.down_from_below) = Fin 2.
Proof.
  split; [|split; [apply floor0_from_below | apply floor3_from_below]].
  apply (negative_t_wins _ _ Demo.floor0 [Plane_as_Surface Demo.floor3] []
                         (-1)).
  - reflexivity.
  - apply floor0_from_below.
  - lra.
  - intros s [<-|[]]. simpl. rewrite floor3_from_below. simpl. lra.
Qed.

(** The demo spot light, switched off, still answers like the one switched
    on: black. *)
Lemma getLocalIllumination_ignores_enabled_witness :
  getLocalIllumination (set_enabled false Demo.spot)
    (mk_dvec3 0 0 1) (mk_dvec3 0 0 0) (mk_dvec3 0 0 1)
    Demo.red (mk_dvec2 (1/2) (1/2))
  = BLACK.
Proof.
  destruct (getLocalIllumination_ignores_enabled Demo.spot false
              (mk_dvec3 0 0 1) (mk_dvec3 0 0 0) (mk_dvec3 0 0 1)
              Demo.red (mk_dvec2 (1/2) (1/2))) as [_ H].
  exact (H rgb_black).
Defined.

End Witnesses.


(* ================================================================== *)
(** * The rest of the sources: viewport, view rays, render loop,
      constructors *)
(* ================================================================== *)

(** What [RayTracer] reads of its frame buffer ([FrameBuffer.h] is not part
    of the sources at hand): the two window dimensions, which are [int]s. *)
Record FrameBuffer : Type := mk_FrameBuffer {
  getWindowWidth : Z;
  getWindowHeight : Z
}.

(** The members of [RayTracer] that describe the view plane. *)
Record ViewingParameters : Type := mk_ViewingParameters {
  nx : R;
  ny : R;
  topLimit : R;
  bottomLimit : R;
  rightLimit : R;
  leftLimit : R;
  distToPlane : R;
  renderPerspectiveView : bool
}.

(** [glm::radians] *)
Definition radians (degrees : R) : R := degrees * (PI / 180).

(** [RayTracer::calculatePerspectiveViewingParameters]; it assigns every
    member of the view plane. *)
Definition calculatePerspectiveViewingParameters
           (colorBuffer : FrameBuffer) (verticalFieldOfViewDegrees : R)
  : ViewingParameters :=
  let nx' := IZR (getWindowWidth colorBuffer) in
  let ny' := IZR (getWindowHeight colorBuffer) in
  let topLimit' := 1 in
  let bottomLimit' := - topLimit' in
  let distToPlane' :=
    topLimit' / tan (radians verticalFieldOfViewDegrees / 2) in
  let rightLimit' := topLimit' * (nx' / ny') in
  let leftLimit' := - rightLimit' in
  mk_ViewingParameters nx' ny' topLimit' bottomLimit' rightLimit' leftLimit'
                       distToPlane' true.

(** [RayTracer::calculateOrthographicViewingParameters]; it assigns every
    member of the view plane. *)
Definition calculateOrthographicViewingParameters
           (colorBuffer : FrameBuffer) (viewPlaneHeight : R)
  : ViewingParameters :=
  let topLimit' := Rabs viewPlaneHeight / 2 in
  let rightLimit' :=
    topLimit' * (IZR (getWindowWidth colorBuffer)
                 / IZR (getWindowHeight colorBuffer)) in
  let leftLimit' := - rightLimit' in
  let bottomLimit' := - topLimit' in
  let nx' := IZR (getWindowWidth colorBuffer) in
  let ny' := IZR (getWindowHeight colorBuffer) in
  mk_ViewingParameters nx' ny' topLimit' bottomLimit' rightLimit' leftLimit'
                       0 false.

(** [RayTracer::getImagePlaneCoordinates] *)
Definition getImagePlaneCoordinates (vp : ViewingParameters) (px py : Z)
  : dvec2 :=
  mk_dvec2
    ((IZR px + 1/2) * ((rightLimit vp - leftLimit vp) / nx vp) + leftLimit vp)
    ((IZR py + 1/2) * ((topLimit vp - bottomLimit vp) / ny vp)
     + bottomLimit vp).

(** The loop [for (int i = 0; i < bound; i++)]: the values [i] takes. *)
Definition int_range (bound : Z) : list Z :=
  map Z.of_nat (seq 0 (Z.to_nat bound)).

Section ViewModel.

Context `{HD : HitRecordDecl}.

(** [RayTracer::getOrthoViewRay] *)
Definition getOrthoViewRay (rt : RayTracer) (vp : ViewingParameters)
           (px py : Z) : Ray :=
  let st := getImagePlaneCoordinates vp px py in
  mk_Ray (eye rt + x2 st * u rt + y2 st * v rt)%vec
         (normalize (- w rt)%vec).

(** [RayTracer::getPerspectiveViewRay] *)
Definition getPerspectiveViewRay (rt : RayTracer) (vp : ViewingParameters)
           (px py : Z) : Ray :=
  let st := getImagePlaneCoordinates vp px py in
  mk_Ray (eye rt)
         (normalize (distToPlane vp * (- w rt) + x2 st * u rt
                     + y2 st * v rt)%vec).

(** The body of the two loops of [raytraceScene] for one pixel: the call
    [setPixel(x, y, vrColor)] it makes. *)
Definition render_pixel (rt : RayTracer) (vp : ViewingParameters)
           (px py : Z) : Z * Z * color :=
  let vr :=
    if renderPerspectiveView vp then getPerspectiveViewRay rt vp px py
    else getOrthoViewRay rt vp px py in
  let vrColor := traceRay rt vr (recursionDepth rt) in
  (px, py, vrColor).

(** [RayTracer::raytraceScene]: the calls of [setPixel] it makes on the
    frame buffer, in the order it makes them. *)
Definition raytraceScene (rt : RayTracer) (vp : ViewingParameters)
           (colorBuffer : FrameBuffer) : list (Z * Z * color) :=
  flat_map
    (fun py => map (fun px => render_pixel rt vp px py)
                   (int_range (getWindowWidth colorBuffer)))
    (int_range (getWindowHeight colorBuffer)).

(** [ImplicitSurface.h]: the material that the base constructor stores for
    the color handed to a [Plane] constructor. *)
Class ImplicitSurfaceDecl : Type := {
  ImplicitSurface_material : color -> Material
}.

Context {ISD : ImplicitSurfaceDecl}.


(** [Plane::Plane(vertices, material)].  Indexing a vector of fewer than
    three vertices is undefined in the source; the model has no plane
    there. *)
Definition new_Plane_from_vertices (vertices : list dvec3) (material : color)
  : option Plane :=
  match vertices with
  | v0 :: v1 :: v2 :: _ =>
      Some (mk_Plane v0
                     (normalize (cross (v2 - v1) (v0 - v1)))
                     (ImplicitSurface_material material))
  | _ => None
  end.

End ViewModel.

(* ================================================================== *)
(** ** The view plane *)
(* ================================================================== *)

Lemma IZR_pixel_bounds (p m : Z) :
  (0 <= p < m)%Z -> 0 <= IZR p /\ IZR p + 1 <= IZR m.
Proof.
  intros [H0 H1]. split.
  - apply IZR_le in H0. exact H0.
  - rewrite <- plus_IZR. apply IZR_le. lia.
Qed.

Lemma IZR_window_pos (m : Z) : (0 < m)%Z -> 0 < IZR m.
Proof. intros Hm. apply IZR_lt in Hm. exact Hm. Qed.

Lemma half_fov_in_range (fov : R) :
  0 < fov < 180 -> 0 < radians fov / 2 < PI / 2.
Proof.
  intros [H0 H1]. unfold radians. pose proof PI_RGT_0 as Hpi.
  split; nra.
Qed.

(** The orthographic view plane is centred on the viewing direction, its
    height is the magnitude of the requested height (the sign of the
    argument does not matter), its width is the height times the aspect
    ratio of the window, and its pixels are square: one pixel is as wide as
    it is high. *)
Theorem orthographic_view_plane (colorBuffer : FrameBuffer) (h : R) :
  (0 < getWindowWidth colorBuffer)%Z ->
  (0 < getWindowHeight colorBuffer)%Z ->
  let vp := calculateOrthographicViewingParameters colorBuffer h in
  leftLimit vp + rightLimit vp = 0 /\
  bottomLimit vp + topLimit vp = 0 /\
  topLimit vp - bottomLimit vp = Rabs h /\
  (rightLimit vp - leftLimit vp) * IZR (getWindowHeight colorBuffer)
  = Rabs h * IZR (getWindowWidth colorBuffer) /\
  (rightLimit vp - leftLimit vp) / nx vp
  = (topLimit vp - bottomLimit vp) / ny vp /\
  calculateOrthographicViewingParameters colorBuffer (- h) = vp.
Proof.
  intros HW HH. cbv zeta.
  apply IZR_window_pos in HW, HH.
  unfold calculateOrthographicViewingParameters. simpl.
  set (W := IZR (getWindowWidth colorBuffer)) in *.
  set (H := IZR (getWindowHeight colorBuffer)) in *.
  repeat split; try (field; lra).
  rewrite Rabs_Ropp. reflexivity.
Qed.

(** For a vertical field of view strictly between 0 and 180 degrees the
    perspective view plane lies at a positive distance in front of the eye,
    its top edge is seen from the eye under half the field of view
    ([top / distance = tan(fov / 2)]), it is centred with height 2, and its
    pixels are square. *)
Theorem perspective_view_plane (colorBuffer : FrameBuffer) (fov : R) :
  (0 < getWindowWidth colorBuffer)%Z ->
  (0 < getWindowHeight colorBuffer)%Z ->
  0 < fov < 180 ->
  let vp := calculatePerspectiveViewingParameters colorBuffer fov in
  0 < distToPlane vp /\
  topLimit vp / distToPlane vp = tan (radians fov / 2) /\
  leftLimit vp + rightLimit vp = 0 /\
  bottomLimit vp + topLimit vp = 0 /\
  topLimit vp - bottomLimit vp = 2 /\
  (rightLimit vp - leftLimit vp) / nx vp
  = (topLimit vp - bottomLimit vp) / ny vp /\
  renderPerspectiveView vp = true.
Proof.
  intros HW HH Hfov. cbv zeta.
  apply IZR_window_pos in HW, HH.
  destruct (half_fov_in_range fov Hfov) as [Ha0 Ha1].
  pose proof (tan_gt_0 _ Ha0 Ha1) as Htan.
  unfold calculatePerspectiveViewingParameters. simpl.
  set (W := IZR (getWindowWidth colorBuffer)) in *.
  set (H := IZR (getWindowHeight colorBuffer)) in *.
  set (T := tan (radians fov / 2)) in *.
  split; [apply Rdiv_lt_0_compat; lra|].
  repeat split; try (field; lra).
Qed.

(** With a window of [W] by [H] pixels and a view plane that is centred and
    not empty, every pixel of the window is sampled strictly inside the view
    plane; neighbouring pixels are one pixel width apart; and the sample of
    the mirrored pixel [W - 1 - px] is the mirror image of the sample of
    [px]. *)
Theorem getImagePlaneCoordinates_inside
        (vp : ViewingParameters) (W H px py : Z) :
  nx vp = IZR W -> ny vp = IZR H ->
  leftLimit vp = - rightLimit vp -> bottomLimit vp = - topLimit vp ->
  0 < rightLimit vp -> 0 < topLimit vp ->
  (0 <= px < W)%Z -> (0 <= py < H)%Z ->
  let s := getImagePlaneCoordinates vp px py in
  leftLimit vp < x2 s < rightLimit vp /\
  bottomLimit vp < y2 s < topLimit vp /\
  x2 (getImagePlaneCoordinates vp (px + 1) py) - x2 s
  = (rightLimit vp - leftLimit vp) / nx vp /\
  x2 (getImagePlaneCoordinates vp (W - 1 - px) py) = - x2 s /\
  y2 (getImagePlaneCoordinates vp px (H - 1 - py)) = - y2 s.
Proof.
  intros Enx Eny El Eb Hr Ht Hpx Hpy. cbv zeta.
  unfold getImagePlaneCoordinates. simpl.
  rewrite Enx, Eny, El, Eb, !minus_IZR, plus_IZR.
  destruct (IZR_pixel_bounds _ _ Hpx) as [Hx0 Hx1].
  destruct (IZR_pixel_bounds _ _ Hpy) as [Hy0 Hy1].
  set (p := IZR px) in *. set (q := IZR py) in *.
  set (w0 := IZR W) in *. set (h0 := IZR H) in *.
  set (r := rightLimit vp) in *. set (tp := topLimit vp) in *.
  assert (Hw : 0 < w0) by lra. assert (Hh : 0 < h0) by lra.
  assert (Hkx : 0 < (r - - r) / w0) by (apply Rdiv_lt_0_compat; lra).
  assert (Hky : 0 < (tp - - tp) / h0) by (apply Rdiv_lt_0_compat; lra).
  assert (Ekx : (r - - r) / w0 * w0 = 2 * r) by (field; lra).
  assert (Eky : (tp - - tp) / h0 * h0 = 2 * tp) by (field; lra).
  set (kx := (r - - r) / w0) in *. set (ky := (tp - - tp) / h0) in *.
  repeat split; try nra.
Qed.

(* ================================================================== *)
(** ** The camera frame and the view rays *)
(* ================================================================== *)

Lemma neg_normalize_neg (p : dvec3) :
  (- normalize (- p))%vec = normalize p.
Proof.
  unfold normalize. rewrite dot_neg_neg.
  generalize (inversesqrt (dot p p)). intros k.
  destruct p. vec_unfold. f_equal; ring.
Qed.

Lemma scale_nonzero (k : R) (p : dvec3) :
  k <> 0 -> p <> Glm.zero -> (k * p)%vec <> Glm.zero.
Proof. intros Hk Hp E. apply Hp. eapply scale_eq_zero; eauto. Qed.

Lemma inversesqrt_scale (k d : R) :
  0 < k -> 0 < d -> inversesqrt (k * k * d) * k = inversesqrt d.
Proof.
  intros Hk Hd. unfold inversesqrt.
  rewrite sqrt_mult by nra. rewrite sqrt_square by lra.
  assert (Hs : 0 < sqrt d) by (apply sqrt_lt_R0; exact Hd).
  field. lra.
Qed.

Lemma normalize_scale_pos (k : R) (p : dvec3) :
  0 < k -> p <> Glm.zero -> normalize (k * p)%vec = normalize p.
Proof.
  intros Hk Hp. unfold normalize.
  rewrite dot_scale_l, dot_scale_r, <- Rmult_assoc.
  pose proof (inversesqrt_scale k (dot p p) Hk (dot_self_pos p Hp)) as E.
  rewrite <- E.
  generalize (inversesqrt (k * k * dot p p)). intros c.
  destruct p. vec_unfold. f_equal; ring.
Qed.

Lemma length_normalize_mul (p : dvec3) :
  p <> Glm.zero -> (Glm.length p * normalize p)%vec = p.
Proof.
  intros Hp. unfold Glm.length, normalize, inversesqrt.
  assert (Hs : 0 < sqrt (dot p p)) by (apply sqrt_lt_R0, dot_self_pos, Hp).
  set (c := sqrt (dot p p)) in *.
  destruct p as [px py pz]. unfold Glm.scale. simpl. f_equal; field; lra.
Qed.

(** The scalar triple product is cyclic. *)
Lemma triple_cyclic (p q r : dvec3) :
  dot (cross p q) r = dot q (cross r p).
Proof. vec_ring. Qed.

Lemma cross_neg_swap (p q : dvec3) : cross p q = (- cross q p)%vec.
Proof. vec_ring. Qed.

Lemma dot_neg_l (p q : dvec3) : dot (- p)%vec q = - dot p q.
Proof. vec_ring. Qed.

Lemma dot_neg_r (p q : dvec3) : dot p (- q)%vec = - dot p q.
Proof. vec_ring. Qed.

(** The square of a combination of three vectors. *)
Lemma dot_comb3 (c1 c2 c3 : R) (p q r : dvec3) :
  dot (c1 * p + c2 * q + c3 * r)%vec (c1 * p + c2 * q + c3 * r)%vec
  = c1 * c1 * dot p p + c2 * c2 * dot q q + c3 * c3 * dot r r
    + 2 * c1 * c2 * dot p q + 2 * c1 * c3 * dot p r + 2 * c2 * c3 * dot q r.
Proof. vec_ring. Qed.

Lemma dot_comb3_l (c1 c2 c3 : R) (p q r s : dvec3) :
  dot (c1 * p + c2 * q + c3 * r)%vec s
  = c1 * dot p s + c2 * dot q s + c3 * dot r s.
Proof. vec_ring. Qed.

Section ViewProperties.

Context `{HD : HitRecordDecl}.

(** What [setCameraFrame] leaves in the members [eye], [u], [v], [w]. *)
Record camera_frame (rt : RayTracer) (viewPosition viewingDirection up : dvec3)
  : Prop := mk_camera_frame {
  frame_eye : eye rt = viewPosition;
  frame_w : w rt = normalize (- viewingDirection)%vec;
  frame_u : u rt = normalize (cross up (w rt));
  frame_v : v rt = cross (w rt) (u rt);
  frame_uu : dot (u rt) (u rt) = 1;
  frame_vv : dot (v rt) (v rt) = 1;
  frame_ww : dot (w rt) (w rt) = 1;
  frame_uv : dot (u rt) (v rt) = 0;
  frame_vw : dot (v rt) (w rt) = 0;
  frame_wu : dot (w rt) (u rt) = 0
}.

Lemma setCameraFrame_frame
      (rt : RayTracer) (viewPosition viewingDirection up : dvec3) :
  cross up viewingDirection <> Glm.zero ->
  camera_frame (setCameraFrame rt viewPosition viewingDirection up)
               viewPosition viewingDirection up.
Proof.
  intros Hc.
  assert (Hvd : viewingDirection <> Glm.zero).
  { intros ->. apply Hc, cross_zero_r. }
  unfold setCameraFrame.
  set (w0 := normalize (- viewingDirection)%vec).
  set (u0 := normalize (cross up w0)).
  assert (Hw : dot w0 w0 = 1)
    by (apply normalize_unit, neg_nonzero, Hvd).
  assert (Hu : dot u0 u0 = 1)
    by (apply normalize_unit, cross_up_w_nonzero, Hc).
  assert (Hwu : dot w0 u0 = 0).
  { unfold u0, normalize at 1. rewrite dot_scale_r, (dot_comm w0), cross_dot_r.
    ring. }
  destruct (frame_from_pair w0 u0 Hw Hu Hwu) as (En & Hv & Huv & Hvw & Hr).
  split; simpl; try rewrite En; auto.
Qed.

(** How the frame of [setCameraFrame] sits relative to its arguments, when
    [up] is not parallel to the viewing direction: [w] points against the
    viewing direction, [u] is perpendicular to [up], and [v] lies on the same
    side as [up].  Only the directions of the two arguments matter: scaling
    either by a positive factor gives the same camera. *)
Theorem setCameraFrame_orientation
        (rt : RayTracer) (viewPosition viewingDirection up : dvec3)
        (k j : R) :
  cross up viewingDirection <> Glm.zero ->
  0 < k -> 0 < j ->
  let rt' := setCameraFrame rt viewPosition viewingDirection up in
  dot (w rt') viewingDirection < 0 /\
  (- w rt')%vec = normalize viewingDirection /\
  dot (u rt') up = 0 /\
  0 < dot (v rt') up /\
  setCameraFrame rt viewPosition (k * viewingDirection)%vec (j * up)%vec = rt'.
Proof.
  intros Hc Hk Hj. cbv zeta.
  assert (Hvd : viewingDirection <> Glm.zero).
  { intros ->. apply Hc, cross_zero_r. }
  pose proof (cross_up_w_nonzero up viewingDirection Hc) as Hcw.
  unfold setCameraFrame. simpl.
  set (w0 := normalize (- viewingDirection)%vec) in *.
  set (c0 := cross up w0) in *.
  split; [|split; [|split; [|split]]].
  - unfold w0, normalize. rewrite dot_scale_l, dot_neg_neg, dot_neg_l.
    pose proof (dot_self_pos _ Hvd) as Hd.
    pose proof (inversesqrt_pos _ Hd) as Hi. nra.
  - apply neg_normalize_neg.
  - unfold normalize. rewrite dot_scale_l. unfold c0.
    rewrite cross_dot_l. ring.
  - pose proof (frame_from_pair w0 (normalize c0)) as Hf.
    assert (Hw : dot w0 w0 = 1)
      by (apply normalize_unit, neg_nonzero, Hvd).
    assert (Hu : dot (normalize c0) (normalize c0) = 1)
      by (apply normalize_unit, Hcw).
    assert (Hwu : dot w0 (normalize c0) = 0).
    { unfold normalize at 1. rewrite dot_scale_r. unfold c0.
      rewrite (dot_comm w0), cross_dot_r. ring. }
    destruct (Hf Hw Hu Hwu) as (En & _). rewrite En.
    rewrite triple_cyclic. fold c0. unfold normalize.
    rewrite dot_scale_l.
    pose proof (dot_self_pos _ Hcw) as Hd.
    pose proof (inversesqrt_pos _ Hd) as Hi. nra.
  - assert (Ew : normalize (- (k * viewingDirection))%vec = w0).
    { replace (- (k * viewingDirection))%vec
        with (k * (- viewingDirection))%vec by vec_ring.
      apply normalize_scale_pos; [exact Hk | apply neg_nonzero, Hvd]. }
    rewrite Ew.
    assert (Eu : normalize (cross (j * up) w0) = normalize c0).
    { rewrite cross_scale_l. apply normalize_scale_pos; assumption. }
    rewrite Eu. reflexivity.
Qed.

Lemma offset_in_frame (e p q r : dvec3) (c1 c2 : R) :
  dot (e + c1 * p + c2 * q - e)%vec r = c1 * dot p r + c2 * dot q r.
Proof. vec_ring. Qed.

Lemma frame_neg_w (rt : RayTracer) (e vd up : dvec3) :
  camera_frame rt e vd up ->
  normalize (- w rt)%vec = normalize vd /\
  (- w rt)%vec = normalize vd /\
  dot (normalize vd) (normalize vd) = 1 /\
  dot (u rt) (normalize vd) = 0 /\
  dot (v rt) (normalize vd) = 0.
Proof.
  intros F.
  assert (E : (- w rt)%vec = normalize vd).
  { rewrite (frame_w _ _ _ _ F). apply neg_normalize_neg. }
  assert (En : dot (- w rt)%vec (- w rt)%vec = 1).
  { rewrite dot_neg_neg. apply (frame_ww _ _ _ _ F). }
  split; [rewrite (normalize_of_unit _ En); exact E|].
  split; [exact E|]. rewrite <- E.
  split; [exact En|].
  rewrite !dot_neg_r, (dot_comm (u rt)), (frame_wu _ _ _ _ F),
    (frame_vw _ _ _ _ F).
  split; ring.
Qed.

Lemma ortho_ray_in_frame
      (rt : RayTracer) (e vd up : dvec3) (vp : ViewingParameters) (px py : Z) :
  camera_frame rt e vd up ->
  let r := getOrthoViewRay rt vp px py in
  let s := getImagePlaneCoordinates vp px py in
  direct r = normalize vd /\
  dot (direct r) (direct r) = 1 /\
  dot (origin r - e)%vec (direct r) = 0 /\
  dot (origin r - e)%vec (u rt) = x2 s /\
  dot (origin r - e)%vec (v rt) = y2 s.
Proof.
  intros F. cbv zeta.
  destruct (frame_neg_w _ _ _ _ F) as (En & _ & Hd & Hud & Hvd).
  unfold getOrthoViewRay. simpl. rewrite En.
  rewrite (frame_eye _ _ _ _ F), !offset_in_frame.
  rewrite Hud, Hvd, (frame_uu _ _ _ _ F), (frame_vv _ _ _ _ F),
    (frame_uv _ _ _ _ F), (dot_comm (v rt)), (frame_uv _ _ _ _ F).
  repeat split; try ring. exact Hd.
Qed.

(** After [setCameraFrame] (with [up] not parallel to the viewing
    direction), every orthographic view ray has the normalised viewing
    direction as its direction, whatever the pixel, so all these rays are
    parallel and of unit length; the origin of the ray lies in the plane
    through the eye perpendicular to the viewing direction, at the image
    plane coordinates of the pixel along [u] and [v]. *)
Theorem getOrthoViewRay_parallel
        (rt : RayTracer) (viewPosition viewingDirection up : dvec3)
        (vp : ViewingParameters) (px py : Z) :
  cross up viewingDirection <> Glm.zero ->
  let rt' := setCameraFrame rt viewPosition viewingDirection up in
  let r := getOrthoViewRay rt' vp px py in
  let s := getImagePlaneCoordinates vp px py in
  direct r = normalize viewingDirection /\
  dot (direct r) (direct r) = 1 /\
  dot (origin r - viewPosition)%vec (direct r) = 0 /\
  dot (origin r - viewPosition)%vec (u rt') = x2 s /\
  dot (origin r - viewPosition)%vec (v rt') = y2 s.
Proof.
  intros Hc. cbv zeta.
  apply (ortho_ray_in_frame _ viewPosition viewingDirection up).
  apply setCameraFrame_frame, Hc.
Qed.

Lemma perspective_ray_in_frame
      (rt : RayTracer) (e vd up : dvec3) (vp : ViewingParameters) (px py : Z) :
  camera_frame rt e vd up ->
  0 < distToPlane vp ->
  let r := getPerspectiveViewRay rt vp px py in
  let s := getImagePlaneCoordinates vp px py in
  origin r = e /\
  dot (direct r) (direct r) = 1 /\
  0 < dot (direct r) (normalize vd) /\
  exists lambda : R,
    0 < lambda /\
    (lambda * direct r)%vec
    = (distToPlane vp * normalize vd + x2 s * u rt + y2 s * v rt)%vec.
Proof.
  intros F Hdist. cbv zeta.
  destruct (frame_neg_w _ _ _ _ F) as (_ & En & Hd & Hud & Hvd).
  unfold getPerspectiveViewRay. cbn [origin direct]. rewrite En.
  set (s := getImagePlaneCoordinates vp px py).
  set (q := (distToPlane vp * normalize vd
             + x2 s * u rt + y2 s * v rt)%vec).
  assert (Hqq : dot q q
                = distToPlane vp * distToPlane vp + x2 s * x2 s + y2 s * y2 s).
  { unfold q. rewrite dot_comb3.
    rewrite Hd, (frame_uu _ _ _ _ F), (frame_vv _ _ _ _ F),
      (frame_uv _ _ _ _ F), (dot_comm (normalize vd) (u rt)),
      (dot_comm (normalize vd) (v rt)), Hud, Hvd.
    ring. }
  assert (Hpos : 0 < dot q q) by (rewrite Hqq; nra).
  assert (Hq : q <> Glm.zero).
  { intros E. rewrite E in Hpos. vec_unfold. lra. }
  split; [apply (frame_eye _ _ _ _ F)|].
  split; [apply normalize_unit, Hq|].
  split.
  - assert (Hqn : dot q (normalize vd) = distToPlane vp).
    { unfold q. rewrite dot_comb3_l, Hd, Hud, Hvd. ring. }
    unfold normalize at 1. rewrite dot_scale_l, Hqn.
    pose proof (inversesqrt_pos _ Hpos) as Hi. nra.
  - exists (Glm.length q). split.
    + unfold Glm.length. apply sqrt_lt_R0, Hpos.
    + apply length_normalize_mul, Hq.
Qed.

(** After [setCameraFrame] (with [up] not parallel to the viewing
    direction) and with the view plane at a positive distance, every
    perspective view ray starts at the eye, has a direction of unit length
    that points forward (its dot product with the viewing direction is
    positive), and passes through the sample point of its pixel on the view
    plane. *)
Theorem getPerspectiveViewRay_through_pixel
        (rt : RayTracer) (viewPosition viewingDirection up : dvec3)
        (vp : ViewingParameters) (px py : Z) :
  cross up viewingDirection <> Glm.zero ->
  0 < distToPlane vp ->
  let rt' := setCameraFrame rt viewPosition viewingDirection up in
  let r := getPerspectiveViewRay rt' vp px py in
  let s := getImagePlaneCoordinates vp px py in
  origin r = viewPosition /\
  dot (direct r) (direct r) = 1 /\
  0 < dot (direct r) (normalize viewingDirection) /\
  exists lambda : R,
    0 < lambda /\
    (lambda * direct r)%vec
    = (distToPlane vp * normalize viewingDirection
       + x2 s * u rt' + y2 s * v rt')%vec.
Proof.
  intros Hc Hdist. cbv zeta.
  apply (perspective_ray_in_frame _ viewPosition viewingDirection up).
  - apply setCameraFrame_frame, Hc.
  - exact Hdist.
Qed.

End ViewProperties.

(* ================================================================== *)
(** ** The render loop *)
(* ================================================================== *)

Lemma int_range_length (bound : Z) :
  Datatypes.length (int_range bound) = Z.to_nat bound.
Proof. unfold int_range. rewrite length_map, length_seq. reflexivity. Qed.

Lemma int_range_nth (bound : Z) (i : nat) :
  (i < Z.to_nat bound)%nat ->
  nth_error (int_range bound) i = Some (Z.of_nat i).
Proof.
  intros Hi. unfold int_range.
  rewrite nth_error_map.
  rewrite (nth_error_nth' _ 0%nat) by (rewrite length_seq; exact Hi).
  rewrite seq_nth by exact Hi. reflexivity.
Qed.

Lemma int_range_In (bound i : Z) :
  In i (int_range bound) <-> (0 <= i < bound)%Z.
Proof.
  unfold int_range. rewrite in_map_iff. split.
  - intros (k & <- & Hk). apply in_seq in Hk. lia.
  - intros Hi. exists (Z.to_nat i). split; [lia|]. apply in_seq. lia.
Qed.

(** Rows of equal length laid end to end: the element in row [j], column
    [i]. *)
Lemma nth_error_flat_map_rows {A B : Type} (f : A -> list B) (wd : nat)
      (l : list A) (j i : nat) :
  (forall r, Datatypes.length (f r) = wd) -> (i < wd)%nat ->
  nth_error (flat_map f l) (j * wd + i)
  = match nth_error l j with
    | Some r => nth_error (f r) i
    | None => None
    end.
Proof.
  intros Hlen Hi. revert j. induction l as [|r l IH]; intros j.
  - simpl. destruct (j * wd + i)%nat; destruct j; reflexivity.
  - simpl flat_map. destruct j as [|j].
    + simpl. apply nth_error_app1. rewrite Hlen. exact Hi.
    + rewrite nth_error_app2 by (rewrite Hlen; simpl; lia).
      rewrite Hlen. simpl nth_error at 2.
      replace (S j * wd + i - wd)%nat with (j * wd + i)%nat by (simpl; lia).
      apply IH.
Qed.

Lemma flat_map_rows_length {A B : Type} (f : A -> list B) (wd : nat)
      (l : list A) :
  (forall r, Datatypes.length (f r) = wd) ->
  Datatypes.length (flat_map f l) = (Datatypes.length l * wd)%nat.
Proof.
  intros Hlen. induction l as [|r l IH]; simpl; [reflexivity|].
  rewrite length_app, Hlen, IH. reflexivity.
Qed.

Section RenderProperties.

Context `{HD : HitRecordDecl}.

(** [raytraceScene] makes one call of [setPixel] per pixel of the window,
    row after row and from left to right within a row: the call number
    [py * width + px] is the one for pixel [(px, py)], and it carries the color
    [traceRay] gives, at the recursion depth of the ray tracer, to the view
    ray of that pixel (perspective or orthographic, as the flag says).  No
    call names a pixel outside the window; a window with no pixels gets no
    call. *)
Theorem raytraceScene_raster
        (rt : RayTracer) (vp : ViewingParameters) (colorBuffer : FrameBuffer) :
  let calls := raytraceScene rt vp colorBuffer in
  let W := getWindowWidth colorBuffer in
  let Ht := getWindowHeight colorBuffer in
  Datatypes.length calls = (Z.to_nat Ht * Z.to_nat W)%nat /\
  (forall px py : Z,
      (0 <= px < W)%Z -> (0 <= py < Ht)%Z ->
      nth_error calls (Z.to_nat (py * W + px))
      = Some (px, py,
              traceRay rt
                (if renderPerspectiveView vp
                 then getPerspectiveViewRay rt vp px py
                 else getOrthoViewRay rt vp px py)
                (recursionDepth rt))) /\
  (forall px py c, In (px, py, c) calls ->
                   (0 <= px < W)%Z /\ (0 <= py < Ht)%Z).
Proof.
  cbv zeta. unfold raytraceScene.
  set (W := getWindowWidth colorBuffer).
  set (Ht := getWindowHeight colorBuffer).
  set (row := fun py => map (fun px => render_pixel rt vp px py) (int_range W)).
  assert (Hrow : forall py, Datatypes.length (row py) = Z.to_nat W).
  { intros py. unfold row. rewrite length_map. apply int_range_length. }
  split; [|split].
  - rewrite (flat_map_rows_length row (Z.to_nat W)) by exact Hrow.
    rewrite int_range_length. reflexivity.
  - intros px py Hpx Hpy.
    replace (Z.to_nat (py * W + px))
      with (Z.to_nat py * Z.to_nat W + Z.to_nat px)%nat by nia.
    rewrite (nth_error_flat_map_rows row (Z.to_nat W)) by (auto; lia).
    rewrite int_range_nth by lia.
    unfold row. rewrite nth_error_map, int_range_nth by lia. simpl.
    rewrite !Z2Nat.id by lia. reflexivity.
  - intros px py c Hin. apply in_flat_map in Hin.
    destruct Hin as (py' & Hpy & Hin). unfold row in Hin.
    apply in_map_iff in Hin. destruct Hin as (px' & E & Hpx).
    unfold render_pixel in E. injection E as -> -> _.
    apply int_range_In in Hpx, Hpy. split; assumption.
Qed.

End RenderProperties.

(* ================================================================== *)
(** ** More on planes, the closest hit and the lights *)
(* ================================================================== *)

From Stdlib Require Import Permutation.

Lemma dle_antisym (p q : double_inf) : dle p q -> dle q p -> p = q.
Proof.
  destruct p, q; simpl; intros H1 H2; try contradiction; try reflexivity.
  f_equal. lra.
Qed.

Lemma dle_INFINITY_r (p : double_inf) : dle p INFINITY.
Proof. destruct p; exact I. Qed.

Lemma sub_nonzero (p q : dvec3) : p <> q -> (p - q)%vec <> Glm.zero.
Proof.
  intros Hpq E. apply Hpq. destruct p, q. vec_unfold.
  injection E as E1 E2 E3. f_equal; lra.
Qed.

Section SceneProperties.

Context `{HD : HitRecordDecl}.

(** The [t] of the closest hit does not depend on the order in which the
    surfaces are stored: two scenes whose surface lists are permutations of
    one another give the same [t] for every ray. *)
Theorem findClosestIntersection_t_permutation
        (rt1 rt2 : RayTracer) (ray : Ray) :
  Permutation (surfaces rt1) (surfaces rt2) ->
  t (findClosestIntersection rt1 ray) = t (findClosestIntersection rt2 ray).
Proof.
  assert (Hle : forall r1 r2 : RayTracer,
             Permutation (surfaces r1) (surfaces r2) ->
             dle (t (findClosestIntersection r1 ray))
                 (t (findClosestIntersection r2 ray))).
  { intros r1 r2 Hp.
    destruct (t (findClosestIntersection r2 ray)) as [t2|] eqn:E2;
      [|apply dle_INFINITY_r].
    destruct (closest_comes_from r2 ray) as (s & Hs & Es).
    { rewrite E2. discriminate. }
    rewrite <- E2, Es. apply closest_le_all.
    eapply Permutation_in; [apply Permutation_sym, Hp | exact Hs]. }
  intros Hp. apply dle_antisym; apply Hle; [|apply Permutation_sym]; exact Hp.
Qed.

(** Back-face culling, end to end: in a scene made only of planes that the
    ray does not approach from the front ([dot(direction, n) >= 0] for each),
    and so also in a scene without surfaces, [traceRay] returns the
    background color. *)
Theorem traceRay_backfaces_only (rt : RayTracer) (ray : Ray) (lvl : Z) :
  (forall s, In s (surfaces rt) ->
             exists p, s = Plane_as_Surface p /\
                       dot (direct ray) (n p) >= 0) ->
  t (findClosestIntersection rt ray) = INFINITY /\
  traceRay rt ray lvl = defaultColor rt.
Proof.
  intros Hback.
  assert (E : t (findClosestIntersection rt ray) = INFINITY).
  { destruct (t (findClosestIntersection rt ray)) as [t0|] eqn:Et;
      [|reflexivity].
    destruct (closest_comes_from rt ray) as (s & Hs & Es).
    { rewrite Et. discriminate. }
    destruct (Hback s Hs) as (p & -> & Hd).
    rewrite Es in Et. simpl in Et.
    rewrite (Plane_findIntersect_miss _ _ Hd) in Et. discriminate Et. }
  split; [exact E | apply traceRay_miss, E].
Qed.

(** For a ray that approaches a plane from the front, the reported [t] has
    the sign of the side the origin is on: positive when the origin is in
    front of the plane, zero when it is on the plane, negative when it is
    behind.  When the direction of the ray has unit length, the hit point is
    at distance [|t|] from the origin. *)
Theorem Plane_findIntersect_t_sign (p : Plane) (ray : Ray) :
  dot (direct ray) (n p) < 0 ->
  exists t0 : R,
    t (Plane_findIntersect p ray) = Fin t0 /\
    dot (origin ray - a p)%vec (n p) = - t0 * dot (direct ray) (n p) /\
    (0 < t0 <-> 0 < dot (origin ray - a p)%vec (n p)) /\
    (t0 = 0 <-> dot (origin ray - a p)%vec (n p) = 0) /\
    (t0 < 0 <-> dot (origin ray - a p)%vec (n p) < 0) /\
    (dot (direct ray) (direct ray) = 1 ->
     distance (origin ray) (interceptPoint (Plane_findIntersect p ray))
     = Rabs t0).
Proof.
  intros Hd. rewrite (Plane_findIntersect_hit _ _ Hd). simpl.
  set (t0 := dot (a p - origin ray) (n p) / dot (direct ray) (n p)).
  exists t0.
  assert (Eside : dot (origin ray - a p)%vec (n p)
                  = - t0 * dot (direct ray) (n p)).
  { unfold t0.
    replace (dot (origin ray - a p)%vec (n p))
      with (- dot (a p - origin ray)%vec (n p))
      by (destruct (origin ray), (a p), (n p); vec_unfold; ring).
    field. lra. }
  split; [reflexivity|]. split; [exact Eside|].
  rewrite Eside. set (d := dot (direct ray) (n p)) in *.
  split; [split; intros; nra|].
  split; [split; intros; nra|].
  split; [split; intros; nra|].
  intros Hunit. unfold distance, Glm.length.
  replace (dot (origin ray + t0 * direct ray - origin ray)%vec
               (origin ray + t0 * direct ray - origin ray)%vec)
    with (t0 * t0 * dot (direct ray) (direct ray))
    by (destruct (origin ray), (direct ray); vec_unfold; ring).
  rewrite Hunit, Rmult_1_r. apply sqrt_Rsqr_abs.
Qed.

(* ---------------------------------------------------------------- *)
(** *** The constructors of [Plane] *)

Lemma triangle_normal_perp (v0 v1 v2 : dvec3) :
  dot (v1 - v0)%vec (cross (v2 - v1) (v0 - v1)) = 0 /\
  dot (v2 - v0)%vec (cross (v2 - v1) (v0 - v1)) = 0 /\
  dot (v0 - v0)%vec (cross (v2 - v1) (v0 - v1)) = 0.
Proof. repeat split; vec_ring. Qed.

Section PlaneConstructors.

Context {ISD : ImplicitSurfaceDecl}.


(** A plane built from three vertices that are not collinear passes through
    all three, and its normal has unit length.  Vertices after the third are
    ignored. *)
Theorem new_Plane_from_vertices_contains
        (v0 v1 v2 : dvec3) (more : list dvec3) (material : color) :
  cross (v2 - v1) (v0 - v1) <> Glm.zero ->
  exists p : Plane,
    new_Plane_from_vertices (v0 :: v1 :: v2 :: more) material = Some p /\
    new_Plane_from_vertices [v0; v1; v2] material = Some p /\
    a p = v0 /\
    dot (n p) (n p) = 1 /\
    dot (v0 - a p)%vec (n p) = 0 /\
    dot (v1 - a p)%vec (n p) = 0 /\
    dot (v2 - a p)%vec (n p) = 0.
Proof.
  intros Hc. eexists. split; [reflexivity|]. simpl.
  split; [reflexivity|]. split; [reflexivity|].
  split; [apply normalize_unit, Hc|].
  destruct (triangle_normal_perp v0 v1 v2) as (P1 & P2 & P0).
  unfold normalize. rewrite !dot_scale_r, P0, P1, P2.
  repeat split; ring.
Qed.

Lemma new_Plane_from_vertices_on_plane_aux
      (v0 v1 v2 : dvec3) (material : color) (p : Plane) (vi : dvec3) :
  new_Plane_from_vertices [v0; v1; v2] material = Some p ->
  In vi [v0; v1; v2] ->
  dot (vi - a p)%vec (n p) = 0.
Proof.
  intros Ep Hin. simpl in Ep. injection Ep as <-. simpl.
  destruct (triangle_normal_perp v0 v1 v2) as (P1 & P2 & P0).
  unfold normalize. rewrite dot_scale_r.
  destruct Hin as [<-|[<-|[<-|[]]]]; rewrite ?P0, ?P1, ?P2; ring.
Qed.

(** Seen from the side its normal points to, a plane built from three
    vertices is hit by a ray aimed at any of the three vertices exactly at
    that vertex. *)
Theorem new_Plane_from_vertices_hit_vertex
        (v0 v1 v2 : dvec3) (material : color) (ray : Ray) (vi : dvec3)
        (p : Plane) (lambda : R) :
  new_Plane_from_vertices [v0; v1; v2] material = Some p ->
  cross (v2 - v1) (v0 - v1) <> Glm.zero ->
  In vi [v0; v1; v2] ->
  (origin ray + lambda * direct ray)%vec = vi ->
  dot (direct ray) (n p) < 0 ->
  t (Plane_findIntersect p ray) = Fin lambda /\
  interceptPoint (Plane_findIntersect p ray) = vi.
Proof.
  intros Ep Hc Hin Haim Hd.
  pose proof
    (new_Plane_from_vertices_on_plane_aux v0 v1 v2 material p vi Ep Hin)
    as Hon.
  rewrite (Plane_findIntersect_hit _ _ Hd). simpl.
  assert (Et : dot (a p - origin ray) (n p) / dot (direct ray) (n p) = lambda).
  { assert (Hnum : dot (a p - origin ray)%vec (n p)
                   = lambda * dot (direct ray) (n p)).
    { rewrite <- Haim in Hon.
      destruct (a p), (origin ray), (direct ray), (n p). vec_unfold. lra. }
    rewrite Hnum. field. lra. }
  rewrite Et. split; [reflexivity | exact Haim].
Qed.

End PlaneConstructors.

End SceneProperties.

(* ---------------------------------------------------------------- *)
(** *** Light vectors, distances and the spot cone *)

Section LightProperties.

Context `{MD : MaterialDecl}.

(** For a positional light, and for a spot light which inherits both
    methods, queried at a point other than the light's position: the light
    vector has unit length, the light distance is a positive number, and
    going from the point along the light vector for the light distance
    arrives at the light's position. *)
Theorem positional_light_vector_and_distance
        (l : LightSource) (base : LightSourceFields)
        (lightPosition spotDirection : dvec3) (cutOff : R) (p : dvec3) :
  l = PositionalLight base lightPosition \/
  l = SpotLight base lightPosition spotDirection cutOff ->
  p <> lightPosition ->
  dot (getLightVector l p) (getLightVector l p) = 1 /\
  exists d : R,
    getLightDistance l p = Fin d /\
    0 < d /\
    (p + d * getLightVector l p)%vec = lightPosition.
Proof.
  intros Hl Hp.
  assert (Hq : (lightPosition - p)%vec <> Glm.zero).
  { apply sub_nonzero. intros E. apply Hp. symmetry. exact E. }
  assert (Ed : distance lightPosition p = Glm.length (lightPosition - p)).
  { unfold distance, Glm.length. rewrite dot_sub_swap. reflexivity. }
  assert (Hv : getLightVector l p = normalize (lightPosition - p))
    by (destruct Hl as [-> | ->]; reflexivity).
  assert (Hdist : getLightDistance l p
                  = Fin (Glm.length (lightPosition - p)))
    by (destruct Hl as [-> | ->]; simpl; rewrite Ed; reflexivity).
  rewrite Hv, Hdist.
  split; [apply normalize_unit, Hq|].
  exists (Glm.length (lightPosition - p)).
  split; [reflexivity|]. split.
  - unfold Glm.length. apply sqrt_lt_R0, dot_self_pos, Hq.
  - rewrite (length_normalize_mul _ Hq).
    destruct p, lightPosition. vec_unfold. f_equal; ring.
Qed.


(** Inside the cone of a spot light whose cut-off cosine is below 1, at a
    point other than the light's position whose cosine to the spot axis is
    at most 1: the positional illumination is scaled by a factor between 0
    and 1, equal to 1 when the cosine is 1, and a larger cosine never gives a
    smaller factor (the ramp from the edge of the cone to its axis). *)
Theorem SpotLight_falloff_ramp
        (base : LightSourceFields) (lightPosition spotDirection : dvec3)
        (cutOff : R) (eyeVector p normal : dvec3) (m : Material)
        (st : dvec2) :
  cutOff < 1 ->
  p <> lightPosition ->
  cutOff < dot (- normalize (lightPosition - p))%vec spotDirection <= 1 ->
  let cosAngle := dot (- normalize (lightPosition - p))%vec spotDirection in
  let ramp := fun c : R => 1 - (1 - c) / (1 - cutOff) in
  getLocalIllumination (SpotLight base lightPosition spotDirection cutOff)
                       eyeVector p normal m st
  = color_scale (ramp cosAngle)
      (PositionalLight_getLocalIllumination base lightPosition
         eyeVector p normal m st) /\
  0 <= ramp cosAngle <= 1 /\
  (cosAngle = 1 -> ramp cosAngle = 1) /\
  (forall c' : R, cosAngle <= c' -> ramp cosAngle <= ramp c').
Proof.
  intros Hc _ [Hin Hle]. cbv zeta. simpl.
  unfold SpotLight_getLocalIllumination.
  set (cosAngle :=
         dot (- normalize (lightPosition - p))%vec spotDirection) in *.
  assert (Hden : 0 < 1 - cutOff) by lra.
  assert (Hinv : 0 < / (1 - cutOff)) by (apply Rinv_0_lt_compat, Hden).
  assert (Hone : (1 - cutOff) * / (1 - cutOff) = 1) by (field; lra).
  unfold Rdiv. set (k := / (1 - cutOff)) in *.
  split; [|split; [|split]].
  - destruct (Rgt_dec cosAngle cutOff) as [_|NG]; [reflexivity|].
    exfalso. apply NG. exact Hin.
  - split; nra.
  - intros E. rewrite E. ring.
  - intros c' Hc'. nra.
Qed.

End LightProperties.

(* ================================================================== *)
(** ** These results at work on the demo scene *)
(* ================================================================== *)

Module Demo2.

(** A window of 100 by 100 pixels. *)
Definition window : FrameBuffer := mk_FrameBuffer 100 100.

(** A view plane at distance 1 with limits -1 and 1. *)
Definition unit_view : ViewingParameters :=
  mk_ViewingParameters 100 100 1 (-1) 1 (-1) 1 true.

(** The demo material of a color is that color, as emissive color. *)
Definition plain : @ImplicitSurfaceDecl Demo.rgb Demo.emissive_only :=
  @Build_ImplicitSurfaceDecl Demo.rgb Demo.emissive_only (fun c => c).

Definition view_direction : dvec3 := mk_dvec3 0 0 (-1).
Definition up_hint : dvec3 := mk_dvec3 0 1 0.
Definition eye_position : dvec3 := mk_dvec3 0 0 5.

(** A triangle in the plane z = 0. *)
Definition tri0 : dvec3 := mk_dvec3 1 0 0.
Definition tri1 : dvec3 := mk_dvec3 0 0 0.
Definition tri2 : dvec3 := mk_dvec3 0 1 0.

Definition up_from_below : Ray := mk_Ray (mk_dvec3 0 0 (-2)) (mk_dvec3 0 0 1).

End Demo2.

Section Witnesses2.

Local Existing Instances Demo.rgb Demo.emissive_only Demo.hit0 Demo2.plain.

Lemma demo_not_parallel :
  cross Demo2.up_hint Demo2.view_direction <> Glm.zero.
Proof. intros E. vec_unfold. injection E. intros. lra. Qed.

Lemma demo_direction_nonzero : Demo2.view_direction <> Glm.zero.
Proof. intros E. vec_unfold. injection E. intros. lra. Qed.

Lemma orthographic_view_plane_witness :
  topLimit (calculateOrthographicViewingParameters Demo2.window (-2))
  - bottomLimit (calculateOrthographicViewingParameters Demo2.window (-2))
  = Rabs (-2).
Proof.
  destruct (orthographic_view_plane Demo2.window (-2)) as (_ & _ & E & _).
  - reflexivity.
  - reflexivity.
  - exact E.
Defined.

(** A field of view of 90 degrees puts the view plane at distance 1. *)
Lemma perspective_fov_90 :
  distToPlane (calculatePerspectiveViewingParameters Demo2.window 90) = 1.
Proof.
  unfold calculatePerspectiveViewingParameters. simpl.
  replace (radians 90 / 2) with (PI / 4) by (unfold radians; field).
  rewrite tan_PI4. field.
Qed.

Lemma perspective_view_plane_witness :
  0 < distToPlane (calculatePerspectiveViewingParameters Demo2.window 90).
Proof.
  destruct (perspective_view_plane Demo2.window 90) as (Hd & _).
  - reflexivity.
  - reflexivity.
  - lra.
  - exact Hd.
Defined.

Lemma ortho_right_limit :
  rightLimit (calculateOrthographicViewingParameters Demo2.window 2) = 1 /\
  topLimit (calculateOrthographicViewingParameters Demo2.window 2) = 1.
Proof.
  unfold calculateOrthographicViewingParameters. simpl.
  rewrite Rabs_right by lra. split; field.
Qed.

(** In a window of 100 by 100 pixels with limits -1 and 1, pixel (49, 49)
    is sampled inside the view plane and pixel (50, 49) mirrors it. *)
Lemma getImagePlaneCoordinates_inside_witness :
  let vp := calculateOrthographicViewingParameters Demo2.window 2 in
  leftLimit vp < x2 (getImagePlaneCoordinates vp 49 49) < rightLimit vp /\
  x2 (getImagePlaneCoordinates vp (100 - 1 - 49) 49)
  = - x2 (getImagePlaneCoordinates vp 49 49).
Proof.
  cbv zeta. destruct ortho_right_limit as [Er Et].
  destruct (getImagePlaneCoordinates_inside
              (calculateOrthographicViewingParameters Demo2.window 2)
              100 100 49 49) as (Hx & _ & _ & Hm & _).
  - reflexivity.
  - reflexivity.
  - reflexivity.
  - reflexivity.
  - rewrite Er. lra.
  - rewrite Et. lra.
  - lia.
  - lia.
  - split; [exact Hx | exact Hm].
Defined.

Lemma setCameraFrame_orientation_witness :
  let rt' := setCameraFrame (Demo.scene []) Demo2.eye_position
                            Demo2.view_direction Demo2.up_hint in
  0 < dot (v rt') Demo2.up_hint /\
  setCameraFrame (Demo.scene []) Demo2.eye_position
                 (2 * Demo2.view_direction)%vec (3 * Demo2.up_hint)%vec = rt'.
Proof.
  cbv zeta.
  destruct (setCameraFrame_orientation (Demo.scene []) Demo2.eye_position
              Demo2.view_direction Demo2.up_hint 2 3 demo_not_parallel)
    as (_ & _ & _ & Hv & E).
  - lra.
  - lra.
  - split; [exact Hv | exact E].
Defined.

Lemma getOrthoViewRay_parallel_witness :
  let rt' := setCameraFrame (Demo.scene []) Demo2.eye_position
                            Demo2.view_direction Demo2.up_hint in
  direct (getOrthoViewRay rt' Demo2.unit_view 0 0)
  = direct (getOrthoViewRay rt' Demo2.unit_view 99 99).
Proof.
  cbv zeta.
  destruct (getOrthoViewRay_parallel (Demo.scene []) Demo2.eye_position
              Demo2.view_direction Demo2.up_hint Demo2.unit_view 0 0
              demo_not_parallel) as (E0 & _).
  destruct (getOrthoViewRay_parallel (Demo.scene []) Demo2.eye_position
              Demo2.view_direction Demo2.up_hint Demo2.unit_view 99 99
              demo_not_parallel) as (E1 & _).
  rewrite E1. exact E0.
Defined.

Lemma getPerspectiveViewRay_through_pixel_witness :
  let rt' := setCameraFrame (Demo.scene []) Demo2.eye_position
                            Demo2.view_direction Demo2.up_hint in
  origin (getPerspectiveViewRay rt' Demo2.unit_view 49 49)
  = Demo2.eye_position /\
  0 < dot (direct (getPerspectiveViewRay rt' Demo2.unit_view 49 49))
          (normalize Demo2.view_direction).
Proof.
  cbv zeta.
  destruct (getPerspectiveViewRay_through_pixel (Demo.scene [])
              Demo2.eye_position Demo2.view_direction Demo2.up_hint
              Demo2.unit_view 49 49 demo_not_parallel)
    as (Eo & _ & Hf & _).
  - simpl. lra.
  - split; [exact Eo | exact Hf].
Defined.

(** Swapping the two floors does not change the closest [t]. *)
Lemma findClosestIntersection_t_permutation_witness :
  t (findClosestIntersection
       (Demo.scene [Plane_as_Surface Demo.floor0;
                    Plane_as_Surface Demo.floor3])
       Demo.down_from_above)
  = t (findClosestIntersection
         (Demo.scene [Plane_as_Surface Demo.floor3;
                      Plane_as_Surface Demo.floor0])
         Demo.down_from_above).
Proof.
  apply findClosestIntersection_t_permutation. simpl. apply perm_swap.
Defined.

(** Looking up from above the two floors, only back faces are met. *)
Lemma traceRay_backfaces_only_witness :
  traceRay
    (Demo.scene [Plane_as_Surface Demo.floor0; Plane_as_Surface Demo.floor3])
    Demo.up_from_above 2
  = Demo.gray.
Proof.
  destruct (traceRay_backfaces_only
              (Demo.scene [Plane_as_Surface Demo.floor0;
                           Plane_as_Surface Demo.floor3])
              Demo.up_from_above 2) as [_ E].
  - intros s [<-|[<-|[]]].
    + exists Demo.floor0. split; [reflexivity | vec_unfold; lra].
    + exists Demo.floor3. split; [reflexivity | vec_unfold; lra].
  - exact E.
Defined.

Lemma Plane_findIntersect_t_sign_witness :
  exists t0 : R,
    t (Plane_findIntersect Demo.floor0 Demo.down_from_above) = Fin t0 /\
    (0 < t0 <->
     0 < dot (origin Demo.down_from_above - a Demo.floor0)%vec
             (n Demo.floor0)).
Proof.
  destruct (Plane_findIntersect_t_sign Demo.floor0 Demo.down_from_above)
    as (t0 & Et & _ & Hs & _).
  - vec_unfold. lra.
  - exists t0. split; [exact Et | exact Hs].
Defined.


Lemma demo_triangle_not_collinear :
  cross (Demo2.tri2 - Demo2.tri1) (Demo2.tri0 - Demo2.tri1) <> Glm.zero.
Proof. intros E. vec_unfold. injection E. intros. lra. Qed.

Lemma new_Plane_from_vertices_contains_witness :
  exists p : Plane,
    new_Plane_from_vertices [Demo2.tri0; Demo2.tri1; Demo2.tri2] Demo.gray
    = Some p /\
    dot (Demo2.tri2 - a p)%vec (n p) = 0.
Proof.
  destruct (new_Plane_from_vertices_contains Demo2.tri0 Demo2.tri1 Demo2.tri2
              [] Demo.gray demo_triangle_not_collinear)
    as (p & Ep & _ & _ & _ & _ & _ & H2).
  exists p. split; [exact Ep | exact H2].
Defined.

(** The demo triangle faces -z; a ray coming up from z = -2 towards the
    vertex at the origin hits the plane there, at [t = 2]. *)
Lemma new_Plane_from_vertices_hit_vertex_witness :
  exists p : Plane,
    new_Plane_from_vertices [Demo2.tri0; Demo2.tri1; Demo2.tri2] Demo.gray
    = Some p /\
    t (Plane_findIntersect p Demo2.up_from_below) = Fin 2 /\
    interceptPoint (Plane_findIntersect p Demo2.up_from_below) = Demo2.tri1.
Proof.
  eexists. split; [reflexivity|].
  apply (new_Plane_from_vertices_hit_vertex Demo2.tri0 Demo2.tri1 Demo2.tri2
           Demo.gray Demo2.up_from_below Demo2.tri1).
  - reflexivity.
  - exact demo_triangle_not_collinear.
  - right. left. reflexivity.
  - vec_unfold. unfold Demo2.tri1. f_equal; ring.
  - vec_unfold. unfold inversesqrt.
    replace ((1 - 0) * (0 - 0) - (0 - 0) * (0 - 0)) with 0 by ring.
    replace ((0 - 0) * (1 - 0) - (0 - 0) * (0 - 0)) with 0 by ring.
    replace ((0 - 0) * (0 - 0) - (1 - 0) * (1 - 0)) with (-1) by ring.
    replace (0 * 0 + 0 * 0 + -1 * -1) with 1 by ring.
    rewrite sqrt_1. lra.
Defined.

Lemma positional_light_vector_and_distance_witness :
  exists d : R,
    getLightDistance Demo.spot Glm.zero = Fin d /\
    (Glm.zero + d * getLightVector Demo.spot Glm.zero)%vec
    = Demo.spot_position.
Proof.
  destruct (positional_light_vector_and_distance Demo.spot Demo.spot_fields
              Demo.spot_position Demo.spot_axis (1/2) Glm.zero)
    as (_ & d & Ed & _ & Ep).
  - right. reflexivity.
  - intros E. vec_unfold. injection E. intros. lra.
  - exists d. split; [exact Ed | exact Ep].
Defined.


(** One unit down the axis of the demo spot light the cosine is 1, and the
    factor lies between 0 and 1. *)
Lemma SpotLight_falloff_ramp_witness :
  let cosAngle :=
    dot (- normalize (Demo.spot_position
                      - (Demo.spot_position + 1 * Demo.spot_axis)))%vec
        Demo.spot_axis in
  cosAngle = 1 /\
  0 <= 1 - (1 - cosAngle) / (1 - 1/2) <= 1.
Proof.
  cbv zeta.
  assert (Hcos : dot (- normalize (Demo.spot_position
                        - (Demo.spot_position + 1 * Demo.spot_axis)))%vec
                     Demo.spot_axis = 1).
  { apply SpotLight_on_axis_cos; [vec_unfold; ring | lra]. }
  split; [exact Hcos|].
  destruct (SpotLight_falloff_ramp Demo.spot_fields Demo.spot_position
              Demo.spot_axis (1/2) (mk_dvec3 0 0 1)
              (Demo.spot_position + 1 * Demo.spot_axis)%vec (mk_dvec3 0 0 1)
              Demo.red (mk_dvec2 (1/2) (1/2))) as (_ & Hr & _).
  - lra.
  - intros E. vec_unfold. injection E. intros. lra.
  - rewrite Hcos. lra.
  - exact Hr.
Defined.

(** In a window of two pixels by one pixel, the second call is the one for
    pixel (1, 0). *)
Lemma raytraceScene_raster_witness :
  nth_error
    (raytraceScene (Demo.scene []) Demo2.unit_view (mk_FrameBuffer 2 1)) 1
  = Some (1%Z, 0%Z,
          traceRay (Demo.scene [])
            (getPerspectiveViewRay (Demo.scene []) Demo2.unit_view 1 0) 2).
Proof.
  destruct (raytraceScene_raster (Demo.scene []) Demo2.unit_view
              (mk_FrameBuffer 2 1)) as (_ & Hnth & _).
  apply (Hnth 1%Z 0%Z); simpl; lia.
Defined.

End Witnesses2.
